(** * User directory service (src/main.py): shallow embedding and properties

    The FastAPI handlers of [src/main.py] operate on one module-level list,
    [users_db].  Each handler is embedded as a function from the list before
    the request to an outcome (a returned value or a raised exception) paired
    with the list after the request.

    Python values are modelled as follows.
    - [int] is [Z] (unbounded).
    - [str] is a list of Unicode code points, so that [len] is [length].
    - [None] is [None]; a value that can be [None] at run time has an
      [option] type.  The fields of a stored [User] other than [id] can be
      [None] at run time, because [copy(update=...)] does not validate.
    - A pydantic model built from a request body remembers which fields the
      body supplied ([__fields_set__]); this is the type [field].
    - [str.lower] depends on the Unicode case tables and is a parameter of
      the development ([lower]).

    A request is the framework's validation of the body against the pydantic
    model followed by the handler ([post_users], [put_user]).  The embedding
    ends at the value the handler returns; the serialisation of that value
    into an HTTP response is not part of it. *)

From Stdlib Require Import ZArith DecimalString Ascii String.
From Stdlib Require DecimalPos DecimalZ.
From stdpp Require Import gmap list sorting.

Local Open Scope Z_scope.

(** ** Strings *)

Definition str := list N.

Definition str_of_string (s : string) : str :=
  (fun a => N_of_ascii a) <$> list_ascii_of_string s.

(** [str(n)] for an [int]: the decimal digits, with a leading minus sign for
    a negative number. *)
Definition str_of_int (n : Z) : str :=
  str_of_string (NilZero.string_of_int (Z.to_int n)).

Fixpoint startswith (needle hay : str) : bool :=
  match needle, hay with
  | [], _ => true
  | _ :: _, [] => false
  | a :: needle', b :: hay' => if N.eqb a b then startswith needle' hay' else false
  end.

(** [needle in hay] on strings: [needle] occurs as a contiguous run. *)
Fixpoint contains (needle hay : str) : bool :=
  startswith needle hay ||
  match hay with
  | [] => false
  | _ :: hay' => contains needle hay'
  end.

(** A lowering function that maps the ASCII capitals and leaves every other
    code point alone; it is used to instantiate [lower] in examples. *)
Definition ascii_lower (s : str) : str :=
  (fun c => if (65 <=? c)%N && (c <=? 90)%N then (c + 32)%N else c) <$> s.

(** ** Exceptions and handlers *)

Inductive exn :=
| HTTPException (status_code : Z) (detail : str)
| RequestValidationError
| AttributeError.

Inductive outcome (A : Type) :=
| Return (a : A)
| Raise (e : exn).
Arguments Return {A} a.
Arguments Raise {A} e.

(** 사용자를 찾을 수 없습니다 *)
Definition not_found_detail : str :=
  [49324; 50857; 51088; 47484; 32; 52286; 51012; 32; 49688; 32;
   50630; 49845; 45768; 45796]%N.

Definition NotFound : exn := HTTPException 404 not_found_detail.
Definition ValidationError : exn := RequestValidationError.

(** ** Data model *)

Inductive UserRole := ADMIN | USER | GUEST.

Global Instance UserRole_eq_dec : EqDecision UserRole.
Proof. solve_decision. Defined.

Global Instance UserRole_countable : Countable UserRole.
Proof.
  refine (inj_countable'
    (fun r => match r with ADMIN => 0%nat | USER => 1%nat | GUEST => 2%nat end)
    (fun n => match n with O => ADMIN | S O => USER | _ => GUEST end) _).
  intros []; reflexivity.
Defined.

(** A field of a request body: left out, or supplied (possibly as [null]). *)
Inductive field (A : Type) :=
| Unset
| Given (v : option A).
Arguments Unset {A}.
Arguments Given {A} v.

(** [Field(min_length=2, max_length=50)] *)
Definition check_name (s : str) : bool :=
  (2 <=? Z.of_nat (length s)) && (Z.of_nat (length s) <=? 50).

(** [Field(ge=0, le=120)] *)
Definition check_age (a : Z) : bool := (0 <=? a) && (a <=? 120).

Module User.
Record t := mk {
  id : Z;
  name : option str;
  email : option str;
  age : option Z;
  role : option UserRole;
  is_active : option bool
}.

(** [User(id=.., name=.., email=.., age=.., role=..)]: the constructor
    validates [name] and [age]; [is_active] takes its default. *)
Definition init (id : Z) (name email : str) (age : option Z) (role : UserRole)
  : outcome t :=
  if check_name name then
    if match age with Some a => check_age a | None => true end then
      Return (mk id (Some name) (Some email) age (Some role) (Some true))
    else Raise RequestValidationError
  else Raise RequestValidationError.
End User.

Module UserCreate.
(** The JSON body of [POST /users]. *)
Record body := mkbody {
  b_name : field str;
  b_email : field str;
  b_age : field Z;
  b_role : field UserRole
}.

(** The validated model. *)
Record t := mk {
  name : str;
  email : str;
  age : option Z;
  role : UserRole
}.

(** Validation of the body: [name] and [email] are required strings,
    [age] is optional and may be null, [role] defaults to [USER] and may
    not be null. *)
Definition validate (b : body) : outcome t :=
  match b_name b, b_email b with
  | Given (Some n), Given (Some e) =>
      if check_name n then
        match
          match b_age b with
          | Unset | Given None => Some None
          | Given (Some a) => if check_age a then Some (Some a) else None
          end,
          match b_role b with
          | Unset => Some USER
          | Given (Some r) => Some r
          | Given None => None
          end
        with
        | Some a, Some r => Return (mk n e a r)
        | _, _ => Raise RequestValidationError
        end
      else Raise RequestValidationError
  | _, _ => Raise RequestValidationError
  end.
End UserCreate.

Module UserUpdate.
(** The model keeps, for each field, whether the body supplied it. *)
Record t := mk {
  name : field str;
  email : field str;
  age : field Z;
  role : field UserRole;
  is_active : field bool
}.

(** Validation of the body: every field is optional and nullable; a name
    that is a string has its length checked, an age that is an integer has
    its range checked. *)
Definition validate (b : t) : outcome t :=
  if match name b with Given (Some n) => check_name n | _ => true end then
    if match age b with Given (Some a) => check_age a | _ => true end then
      Return b
    else Raise RequestValidationError
  else Raise RequestValidationError.
End UserUpdate.

Module Message.
Record t := mk {
  message : str;
  status_code : Z
}.
End Message.

(** ** The collection *)

Abbreviation db := (list User.t) (only parsing).

Definition handler (A : Type) := db -> outcome A * db.

(** 김철수, 이영희, 박민수 *)
Definition users_db : db :=
  [ User.mk 1 (Some [44608; 52384; 49688]%N)
      (Some (str_of_string "kim@example.com")) (Some 25) (Some USER) (Some true);
    User.mk 2 (Some [51060; 50689; 55148]%N)
      (Some (str_of_string "lee@example.com")) (Some 30) (Some ADMIN) (Some true);
    User.mk 3 (Some [48149; 48124; 49688]%N)
      (Some (str_of_string "park@example.com")) (Some 22) (Some USER) (Some true) ].

Definition ids (d : db) : list Z := User.id <$> d.

(** [next((i, user) for i, user in enumerate(users_db) if user.id == user_id)] *)
Definition find_user (user_id : Z) (d : db) : option (nat * User.t) :=
  list_find (fun u => User.id u = user_id) d.

(** ** Handlers *)

Definition get_users : handler (list User.t) :=
  fun d => (Return d, d).

Definition get_user (user_id : Z) : handler User.t :=
  fun d =>
    match snd <$> find_user user_id d with
    | None => (Raise NotFound, d)
    | Some user => (Return user, d)
    end.

(** [max([u.id for u in users_db]) + 1 if users_db else 1] *)
Definition new_id (d : db) : Z :=
  match ids d with
  | [] => 1
  | i :: rest => foldl Z.max i rest + 1
  end.

Definition create_user (user : UserCreate.t) : handler User.t :=
  fun d =>
    match User.init (new_id d) (UserCreate.name user) (UserCreate.email user)
            (UserCreate.age user) (UserCreate.role user) with
    | Raise e => (Raise e, d)
    | Return new_user => (Return new_user, d ++ [new_user])
    end.

(** [POST /users]: the framework validates the body, then calls the handler. *)
Definition post_users (b : UserCreate.body) : handler User.t :=
  fun d =>
    match UserCreate.validate b with
    | Raise e => (Raise e, d)
    | Return user => create_user user d
    end.

(** One entry of [copy(update=user_update.dict(exclude_unset=True))]: a
    supplied field replaces the stored one, a field left out keeps it. *)
Definition merge {A} (f : field A) (old : option A) : option A :=
  match f with
  | Unset => old
  | Given v => v
  end.

Definition copy_update (existing_user : User.t) (user_update : UserUpdate.t) : User.t :=
  User.mk (User.id existing_user)
    (merge (UserUpdate.name user_update) (User.name existing_user))
    (merge (UserUpdate.email user_update) (User.email existing_user))
    (merge (UserUpdate.age user_update) (User.age existing_user))
    (merge (UserUpdate.role user_update) (User.role existing_user))
    (merge (UserUpdate.is_active user_update) (User.is_active existing_user)).

Definition update_user (user_id : Z) (user_update : UserUpdate.t) : handler User.t :=
  fun d =>
    match find_user user_id d with
    | None => (Raise NotFound, d)
    | Some (user_index, existing_user) =>
        let updated_user := copy_update existing_user user_update in
        (Return updated_user, <[user_index := updated_user]> d)
    end.

(** [PUT /users/{user_id}]: the framework validates the body first. *)
Definition put_user (user_id : Z) (b : UserUpdate.t) : handler User.t :=
  fun d =>
    match UserUpdate.validate b with
    | Raise e => (Raise e, d)
    | Return user_update => update_user user_id user_update d
    end.

(** 사용자 ID {user_id}가 삭제되었습니다 *)
Definition deleted_prefix : str := [49324; 50857; 51088; 32; 73; 68; 32]%N.
Definition deleted_suffix : str :=
  [44032; 32; 49325; 51228; 46104; 50632; 49845; 45768; 45796]%N.

Definition delete_user (user_id : Z) : handler Message.t :=
  fun d =>
    match fst <$> find_user user_id d with
    | None => (Raise NotFound, d)
    | Some user_index =>
        (Return (Message.mk (deleted_prefix ++ str_of_int user_id ++ deleted_suffix) 200),
         delete user_index d)
    end.

(** ** Search *)

Section Search.

(** [str.lower] *)
Variable lower : str -> str.

(** [name.lower() in u.name.lower()]; a stored name that is [None] has no
    method [lower]. *)
Definition name_matches (name : str) (u : User.t) : outcome bool :=
  match User.name u with
  | None => Raise AttributeError
  | Some n => Return (contains (lower name) (lower n))
  end.

(** A list comprehension whose condition can raise. *)
Fixpoint comprehension (cond : User.t -> outcome bool) (l : list User.t)
  : outcome (list User.t) :=
  match l with
  | [] => Return []
  | u :: l' =>
      match cond u with
      | Raise e => Raise e
      | Return b =>
          match comprehension cond l' with
          | Raise e => Raise e
          | Return r => Return (if b then u :: r else r)
          end
      end
  end.

(** [u.role == role] *)
Definition role_is (role : UserRole) (u : User.t) : bool :=
  bool_decide (User.role u = Some role).

(** [u.age and u.age >= min_age]: [None] and [0] are both falsy. *)
Definition age_at_least (min_age : Z) (u : User.t) : bool :=
  match User.age u with
  | None => false
  | Some a => if a =? 0 then false else min_age <=? a
  end.

(** [u.age and u.age <= max_age] *)
Definition age_at_most (max_age : Z) (u : User.t) : bool :=
  match User.age u with
  | None => false
  | Some a => if a =? 0 then false else a <=? max_age
  end.

Definition search_users (name : option str) (role : option UserRole)
    (min_age max_age : option Z) : handler (list User.t) :=
  fun d =>
    let filtered_users := d in
    match
      match name with
      | Some (c :: n) => comprehension (name_matches (c :: n)) filtered_users
      | Some [] | None => Return filtered_users
      end
    with
    | Raise e => (Raise e, d)
    | Return filtered_users =>
        let filtered_users :=
          match role with
          | Some r => List.filter (role_is r) filtered_users
          | None => filtered_users
          end in
        let filtered_users :=
          match min_age with
          | Some m => List.filter (age_at_least m) filtered_users
          | None => filtered_users
          end in
        let filtered_users :=
          match max_age with
          | Some m => List.filter (age_at_most m) filtered_users
          | None => filtered_users
          end in
        (Return filtered_users, d)
    end.

End Search.

(** ** Statistics *)

Module Stats.
Record t := mk {
  total_users : Z;
  active_users : Z;
  inactive_users : Z;
  role_distribution : gmap (option UserRole) Z
}.
End Stats.

(** [if u.is_active] *)
Definition truthy_bool (b : option bool) : bool :=
  match b with
  | Some true => true
  | _ => false
  end.

(** [role_counts[user.role] = role_counts.get(user.role, 0) + 1] *)
Definition count_role (role_counts : gmap (option UserRole) Z) (user : User.t)
  : gmap (option UserRole) Z :=
  <[User.role user := default 0 (role_counts !! User.role user) + 1]> role_counts.

Definition get_stats : handler Stats.t :=
  fun d =>
    let total_users := Z.of_nat (length d) in
    let active_users :=
      Z.of_nat (length (List.filter (fun u => truthy_bool (User.is_active u)) d)) in
    let role_counts := foldl count_role ∅ d in
    (Return (Stats.mk total_users active_users (total_users - active_users) role_counts), d).

(** ** Reachable states: the seed, then any sequence of write requests *)

Inductive reachable : db -> Prop :=
| reachable_seed : reachable users_db
| reachable_post b d : reachable d -> reachable (snd (post_users b d))
| reachable_put user_id b d : reachable d -> reachable (snd (put_user user_id b d))
| reachable_delete user_id d : reachable d -> reachable (snd (delete_user user_id d)).

Definition ids_unique (d : db) : Prop := NoDup (ids d).

(** The field constraints of the models, read on a stored record: a name
    that is a string has a length in [2,50], an age that is an integer lies
    in [0,120]. *)
Definition constraints_hold (u : User.t) : Prop :=
  (forall n, User.name u = Some n -> (2 <= length n <= 50)%nat) /\
  (forall a, User.age u = Some a -> 0 <= a <= 120).

(** ** The definitions on concrete inputs *)

Example str_of_int_42 : str_of_int 42 = str_of_string "42".
Proof. reflexivity. Qed.

Example str_of_int_neg : str_of_int (-7) = str_of_string "-7".
Proof. reflexivity. Qed.

Example contains_middle :
  contains (str_of_string "ell") (str_of_string "hello") = true.
Proof. reflexivity. Qed.

Example contains_gap :
  contains (str_of_string "hlo") (str_of_string "hello") = false.
Proof. reflexivity. Qed.

Example contains_empty : contains [] (str_of_string "hello") = true.
Proof. reflexivity. Qed.

Example new_id_seed : new_id users_db = 4.
Proof. reflexivity. Qed.

Example new_id_empty : new_id [] = 1.
Proof. reflexivity. Qed.

Example get_user_missing : get_user 9 users_db = (Raise NotFound, users_db).
Proof. reflexivity. Qed.

Example delete_user_seed_message :
  fst (delete_user 2 users_db) =
  Return (Message.mk (deleted_prefix ++ str_of_string "2" ++ deleted_suffix) 200).
Proof. reflexivity. Qed.

Example search_users_by_name :
  fst (search_users ascii_lower (Some [52384%N]) None None None users_db) =
  Return (take 1 users_db).
Proof. reflexivity. Qed.

Example search_users_by_role_and_age :
  fst (search_users ascii_lower None (Some USER) (Some 23) (Some 40) users_db) =
  Return (take 1 users_db).
Proof. reflexivity. Qed.

(** A stored name that is null makes a search by name raise. *)
Example search_users_null_name :
  let d := snd (put_user 2 (UserUpdate.mk (Given None) Unset Unset Unset Unset) users_db) in
  search_users ascii_lower (Some (str_of_string "a")) None None None d =
  (Raise AttributeError, d).
Proof. reflexivity. Qed.

(** ** Auxiliary facts *)

Lemma find_user_Some user_id (d : db) i u :
  find_user user_id d = Some (i, u) <->
  d !! i = Some u /\ User.id u = user_id /\
  (forall j y, d !! j = Some y -> (j < i)%nat -> User.id y <> user_id).
Proof. unfold find_user. apply (list_find_Some (fun x => User.id x = user_id)). Qed.

Lemma find_user_None user_id (d : db) :
  find_user user_id d = None <-> user_id ∉ ids d.
Proof.
  unfold find_user, ids. rewrite list_find_None, Forall_forall.
  rewrite list_elem_of_fmap. split.
  - intros H (u & -> & Hu). exact (H u Hu eq_refl).
  - intros H u Hu Hid. apply H. exists u. auto.
Qed.

Lemma find_user_present user_id (d : db) :
  user_id ∈ ids d -> exists i u, find_user user_id d = Some (i, u).
Proof.
  intros Hin. destruct (find_user user_id d) as [[i u]|] eqn:E.
  - eauto.
  - apply find_user_None in E. contradiction.
Qed.

Lemma foldl_max_ge (l : list Z) (i : Z) :
  i <= foldl Z.max i l /\ Forall (fun x => x <= foldl Z.max i l) l.
Proof.
  revert i. induction l as [|x l IH]; intros i; simpl.
  - split; [lia | constructor].
  - destruct (IH (Z.max i x)) as [H1 H2]. split; [lia|].
    constructor; [lia | exact H2].
Qed.

Lemma foldl_max_in (l : list Z) (i : Z) :
  foldl Z.max i l ∈ i :: l.
Proof.
  revert i. induction l as [|x l IH]; intros i; simpl.
  - left.
  - specialize (IH (Z.max i x)).
    apply elem_of_cons in IH as [IH|IH].
    + rewrite IH. destruct (Z.max_spec i x) as [[_ ->]|[_ ->]].
      * right; left.
      * left.
    + right; right; exact IH.
Qed.

Lemma new_id_above (d : db) i : i ∈ ids d -> i < new_id d.
Proof.
  unfold new_id. destruct (ids d) as [|x rest]; intros Hin.
  - inversion Hin.
  - destruct (foldl_max_ge rest x) as [H1 H2].
    apply elem_of_cons in Hin as [->|Hin]; [lia|].
    rewrite Forall_forall in H2. specialize (H2 _ Hin). lia.
Qed.

Lemma new_id_fresh (d : db) : new_id d ∉ ids d.
Proof. intros Hin. apply new_id_above in Hin. lia. Qed.

Lemma ids_insert (d : db) i u u' :
  d !! i = Some u -> User.id u' = User.id u -> ids (<[i := u']> d) = ids d.
Proof.
  intros Hi Hid. unfold ids. rewrite list_fmap_insert, Hid.
  apply list_insert_id. rewrite list_lookup_fmap, Hi. reflexivity.
Qed.

Lemma ids_delete (d : db) i : ids (delete i d) = delete i (ids d).
Proof.
  unfold ids. revert i. induction d as [|u d IH]; intros [|i]; simpl; auto.
  f_equal. apply IH.
Qed.

Lemma NoDup_delete {A} (l : list A) i : NoDup l -> NoDup (delete i l).
Proof. intros H. eapply sublist_NoDup; [exact H | apply sublist_delete]. Qed.

Lemma check_name_spec (n : str) :
  check_name n = true <-> (2 <= length n <= 50)%nat.
Proof. unfold check_name. rewrite andb_true_iff, !Z.leb_le. lia. Qed.

Lemma check_age_spec (a : Z) : check_age a = true <-> 0 <= a <= 120.
Proof. unfold check_age. rewrite andb_true_iff, !Z.leb_le. lia. Qed.

Lemma find_user_split user_id (d : db) i u :
  find_user user_id d = Some (i, u) ->
  d = take i d ++ u :: drop (S i) d /\
  delete i d = take i d ++ drop (S i) d /\
  User.id u = user_id /\
  user_id ∉ ids (take i d).
Proof.
  intros E. apply find_user_Some in E as (Hi & Hid & Hmin).
  split; [symmetry; apply take_drop_middle, Hi|].
  split; [apply delete_take_drop|]. split; [exact Hid|].
  unfold ids. rewrite list_elem_of_fmap. intros (y & Hy & Hin).
  apply list_elem_of_lookup in Hin as [j Hj].
  apply lookup_take_Some in Hj as [Hj Hlt].
  exact (Hmin j y Hj Hlt (eq_sym Hy)).
Qed.

Lemma find_user_insert user_id (d : db) i u u' :
  find_user user_id d = Some (i, u) -> User.id u' = user_id ->
  find_user user_id (<[i := u']> d) = Some (i, u').
Proof.
  intros E Hid. apply find_user_Some in E as (Hi & _ & Hmin).
  apply find_user_Some. split; [|split].
  - apply list_lookup_insert_eq. eapply lookup_lt_Some, Hi.
  - exact Hid.
  - intros j y Hj Hlt. rewrite list_lookup_insert_ne in Hj by lia.
    exact (Hmin j y Hj Hlt).
Qed.

Lemma validate_update_Return (b : UserUpdate.t) :
  (forall n, UserUpdate.name b = Given (Some n) -> (2 <= length n <= 50)%nat) ->
  (forall a, UserUpdate.age b = Given (Some a) -> 0 <= a <= 120) ->
  UserUpdate.validate b = Return b.
Proof.
  intros Hn Ha. unfold UserUpdate.validate.
  destruct (UserUpdate.name b) as [|[n|]];
    [ | rewrite (proj2 (check_name_spec n) (Hn n eq_refl)) | ];
    (destruct (UserUpdate.age b) as [|[a|]];
      [ | rewrite (proj2 (check_age_spec a) (Ha a eq_refl)) | ]); reflexivity.
Qed.

Lemma validate_update_Raise (b : UserUpdate.t) :
  ~ ((forall n, UserUpdate.name b = Given (Some n) -> (2 <= length n <= 50)%nat) /\
     (forall a, UserUpdate.age b = Given (Some a) -> 0 <= a <= 120)) ->
  UserUpdate.validate b = Raise ValidationError.
Proof.
  intros Hnot. unfold UserUpdate.validate.
  destruct (UserUpdate.name b) as [|[n|]] eqn:En;
    [ | destruct (check_name n) eqn:Hn; [|reflexivity] | ];
    (destruct (UserUpdate.age b) as [|[a|]] eqn:Ea;
      [ | destruct (check_age a) eqn:Ha; [|reflexivity] | ]);
    exfalso; apply Hnot; split; intros x Hx; inversion Hx; subst;
    try (apply check_name_spec; assumption);
    try (apply check_age_spec; assumption).
Qed.

(** A validated [UserCreate] passes the checks of the [User] constructor. *)
Lemma validate_create_checked b user :
  UserCreate.validate b = Return user ->
  check_name (UserCreate.name user) = true /\
  match UserCreate.age user with Some a => check_age a | None => true end = true.
Proof.
  unfold UserCreate.validate. intros H.
  destruct (UserCreate.b_name b) as [|[n|]]; try discriminate.
  destruct (UserCreate.b_email b) as [|[e|]]; try discriminate.
  destruct (check_name n) eqn:Hn; try discriminate.
  destruct (UserCreate.b_age b) as [|[a|]];
    [ | destruct (check_age a) eqn:Ha | ];
    destruct (UserCreate.b_role b) as [|[r|]];
    try discriminate; inversion H; subst; simpl; auto.
Qed.

Lemma post_users_Return_name b (d d' : db) u :
  post_users b d = (Return u, d') ->
  exists n, User.name u = Some n /\ (2 <= length n <= 50)%nat.
Proof.
  unfold post_users. intros H.
  destruct (UserCreate.validate b) as [user|e] eqn:Hv; [|discriminate].
  destruct (validate_create_checked _ _ Hv) as [Hn Ha].
  unfold create_user, User.init in H. rewrite Hn, Ha in H.
  inversion H; subst. simpl. eexists. split; [reflexivity|].
  apply check_name_spec, Hn.
Qed.

Lemma create_user_state user (d : db) :
  snd (create_user user d) = d \/
  exists u, create_user user d = (Return u, d ++ [u]) /\ User.id u = new_id d.
Proof.
  unfold create_user, User.init.
  destruct (check_name _); [|left; reflexivity].
  destruct (match UserCreate.age user with Some a => check_age a | None => true end);
    [|left; reflexivity].
  right. eexists. split; reflexivity.
Qed.

Lemma ids_unique_snoc (d : db) u :
  ids_unique d -> User.id u = new_id d -> ids_unique (d ++ [u]).
Proof.
  unfold ids_unique, ids. intros Hd Hu. rewrite fmap_app. simpl.
  apply NoDup_app. split; [exact Hd|]. split.
  - intros x Hx Hx'. apply list_elem_of_singleton in Hx'. subst x.
    rewrite Hu in Hx. exact (new_id_fresh d Hx).
  - apply NoDup_singleton.
Qed.

Lemma post_users_unique b (d : db) :
  ids_unique d -> ids_unique (snd (post_users b d)).
Proof.
  intros Hd. unfold post_users.
  destruct (UserCreate.validate b) as [user|e]; [|exact Hd].
  destruct (create_user_state user d) as [->|(u & -> & Hu)]; [exact Hd|].
  simpl. apply ids_unique_snoc; assumption.
Qed.

Lemma update_user_ids user_id b (d : db) :
  ids (snd (update_user user_id b d)) = ids d.
Proof.
  unfold update_user.
  destruct (find_user user_id d) as [[i u]|] eqn:E; [|reflexivity].
  simpl. apply find_user_Some in E as (Hi & _ & _).
  eapply ids_insert; [exact Hi | reflexivity].
Qed.

Lemma put_user_ids user_id b (d : db) :
  ids (snd (put_user user_id b d)) = ids d.
Proof.
  unfold put_user. destruct (UserUpdate.validate b); [|reflexivity].
  apply update_user_ids.
Qed.

Lemma delete_user_unique user_id (d : db) :
  ids_unique d -> ids_unique (snd (delete_user user_id d)).
Proof.
  intros Hd. unfold delete_user.
  destruct (find_user user_id d) as [[i u]|]; simpl; [|exact Hd].
  unfold ids_unique. rewrite ids_delete. apply NoDup_delete. exact Hd.
Qed.

Lemma users_db_unique : ids_unique users_db.
Proof.
  unfold ids_unique. apply (bool_decide_unpack _). vm_compute. exact I.
Qed.

Lemma reachable_unique (d : db) : reachable d -> ids_unique d.
Proof.
  induction 1 as [|b d _ IH|user_id b d _ IH|user_id d _ IH].
  - exact users_db_unique.
  - apply post_users_unique, IH.
  - unfold ids_unique. rewrite put_user_ids. exact IH.
  - apply delete_user_unique, IH.
Qed.

(** ** Create *)

(** C3. For every request body that passes validation and every state of the
    collection, [POST /users] returns a record whose id is [1] when the
    collection is empty and otherwise [1 + m], where [m] is an existing id
    that no existing id exceeds; the record is appended at the end of the
    collection, whose length grows by exactly one, and it carries the
    validated fields with [is_active] set. *)
Theorem create_user_appends_next_id (b : UserCreate.body) (user : UserCreate.t) (d : db) :
  UserCreate.validate b = Return user ->
  exists u,
    post_users b d = (Return u, d ++ [u]) /\
    create_user user d = (Return u, d ++ [u]) /\
    (d = [] -> User.id u = 1) /\
    (d <> [] ->
     exists m, m ∈ ids d /\ (forall i, i ∈ ids d -> i <= m) /\ User.id u = 1 + m) /\
    length (d ++ [u]) = S (length d) /\
    u = User.mk (User.id u) (Some (UserCreate.name user)) (Some (UserCreate.email user))
          (UserCreate.age user) (Some (UserCreate.role user)) (Some true).
Proof.
  intros Hv. destruct (validate_create_checked _ _ Hv) as [Hn Ha].
  unfold post_users. rewrite Hv. unfold create_user, User.init. rewrite Hn, Ha.
  eexists. split; [reflexivity|]. split; [reflexivity|]. simpl.
  split; [|split; [|split]].
  - intros ->. reflexivity.
  - intros Hne. unfold new_id.
    destruct (ids d) as [|i rest] eqn:E.
    + destruct d; [congruence | discriminate].
    + exists (foldl Z.max i rest). split; [apply foldl_max_in|]. split; [|lia].
      intros j Hj. destruct (foldl_max_ge rest i) as [H1 H2].
      apply elem_of_cons in Hj as [->|Hj]; [exact H1|].
      rewrite Forall_forall in H2. exact (H2 _ Hj).
  - rewrite length_app. simpl. lia.
  - reflexivity.
Qed.

Lemma create_user_appends_next_id_witness :
  let b := UserCreate.mkbody (Given (Some (str_of_string "Dana")))
             (Given (Some (str_of_string "dana@example.com"))) (Given (Some 41)) Unset in
  let user := UserCreate.mk (str_of_string "Dana") (str_of_string "dana@example.com")
                (Some 41) USER in
  UserCreate.validate b = Return user /\
  exists u,
    post_users b users_db = (Return u, users_db ++ [u]) /\
    create_user user users_db = (Return u, users_db ++ [u]) /\
    (users_db = [] -> User.id u = 1) /\
    (users_db <> [] ->
     exists m, m ∈ ids users_db /\ (forall i, i ∈ ids users_db -> i <= m) /\
               User.id u = 1 + m) /\
    length (users_db ++ [u]) = S (length users_db) /\
    u = User.mk (User.id u) (Some (UserCreate.name user)) (Some (UserCreate.email user))
          (UserCreate.age user) (Some (UserCreate.role user)) (Some true).
Proof.
  split; [reflexivity|].
  apply (create_user_appends_next_id _ _ users_db). reflexivity.
Defined.

(** C4. A request body whose name is a string of length outside [2,50]
    makes [POST /users] fail with ValidationError, and the collection after
    the request is the collection before it. *)
Theorem create_user_invalid_name (b : UserCreate.body) (n : str) (d : db) :
  UserCreate.b_name b = Given (Some n) ->
  ((length n < 2)%nat \/ (50 < length n)%nat) ->
  post_users b d = (Raise ValidationError, d).
Proof.
  intros Hb Hlen. unfold post_users, UserCreate.validate. rewrite Hb.
  assert (check_name n = false) as ->.
  { destruct (check_name n) eqn:E; [|reflexivity].
    apply check_name_spec in E. lia. }
  destruct (UserCreate.b_email b) as [|[e|]]; reflexivity.
Qed.

Lemma create_user_invalid_name_witness :
  let b := UserCreate.mkbody (Given (Some (str_of_string "A")))
             (Given (Some (str_of_string "a@example.com"))) Unset Unset in
  UserCreate.b_name b = Given (Some (str_of_string "A")) /\
  ((length (str_of_string "A") < 2)%nat \/ (50 < length (str_of_string "A"))%nat) /\
  post_users b users_db = (Raise ValidationError, users_db).
Proof.
  split; [reflexivity|]. split; [left; simpl; lia|].
  apply (create_user_invalid_name _ (str_of_string "A")); [reflexivity | left; simpl; lia].
Defined.

(** ** Uniqueness of ids *)

(** C5. The ids of the seed collection are pairwise distinct; create, update
    and delete each take a collection with pairwise distinct ids to one with
    pairwise distinct ids, whatever the request and its outcome; update
    leaves the sequence of ids as it was; hence every collection reachable
    from the seed by such requests has pairwise distinct ids. *)
Theorem ids_unique_invariant :
  ids_unique users_db /\
  (forall d, ids_unique d ->
     (forall b, ids_unique (snd (post_users b d))) /\
     (forall user, ids_unique (snd (create_user user d))) /\
     (forall user_id b, ids_unique (snd (put_user user_id b d))) /\
     (forall user_id b, ids_unique (snd (update_user user_id b d))) /\
     (forall user_id, ids_unique (snd (delete_user user_id d)))) /\
  (forall d user_id b,
     ids (snd (put_user user_id b d)) = ids d /\
     ids (snd (update_user user_id b d)) = ids d) /\
  (forall d, reachable d -> ids_unique d).
Proof.
  split; [exact users_db_unique|]. split; [|split].
  - intros d Hd. repeat split.
    + intros b. apply post_users_unique, Hd.
    + intros user. destruct (create_user_state user d) as [->|(u & -> & Hu)]; [exact Hd|].
      simpl. apply ids_unique_snoc; assumption.
    + intros user_id b. unfold ids_unique. rewrite put_user_ids. exact Hd.
    + intros user_id b. unfold ids_unique. rewrite update_user_ids. exact Hd.
    + intros user_id. apply delete_user_unique, Hd.
  - intros d user_id b. split; [apply put_user_ids | apply update_user_ids].
  - exact reachable_unique.
Qed.

Lemma ids_unique_invariant_witness :
  ids_unique users_db /\
  ids_unique (snd (delete_user 2 users_db)) /\
  ids (snd (put_user 2 (UserUpdate.mk Unset Unset (Given (Some 31)) Unset Unset) users_db))
  = ids users_db.
Proof.
  destruct ids_unique_invariant as (Hseed & Hstep & Hput & _).
  split; [exact Hseed|]. split.
  - destruct (Hstep users_db Hseed) as (_ & _ & _ & _ & Hdel). apply Hdel.
  - apply Hput.
Defined.

(** ** Update *)

(** C1. When [user_id] is present, [PUT /users/{user_id}] acts on the first
    record [existing] with that id, at position [i].
    - Validation: the body is rejected with ValidationError, the collection
      being left as it was, exactly when a supplied name string has a length
      outside [2,50] or a supplied age integer lies outside [0,120]; these
      are the bounds that create applies to a name string and an age integer.
    - Merge: an accepted body returns the updated record and stores it at
      position [i], all other positions being untouched; in the updated
      record every supplied field has the supplied value, every field left
      out has the value of [existing], and the id is that of [existing].
    - In particular a body that supplies only [age] changes only [age]. *)
Theorem update_user_merges (user_id : Z) (b : UserUpdate.t) (d : db) :
  user_id ∈ ids d ->
  exists i existing,
    d !! i = Some existing /\ User.id existing = user_id /\
    (forall j y, d !! j = Some y -> (j < i)%nat -> User.id y <> user_id) /\
    (~ ((forall n, UserUpdate.name b = Given (Some n) -> (2 <= length n <= 50)%nat) /\
        (forall a, UserUpdate.age b = Given (Some a) -> 0 <= a <= 120)) ->
     put_user user_id b d = (Raise ValidationError, d)) /\
    (forall cb n e,
       UserCreate.b_name cb = Given (Some n) ->
       UserCreate.b_email cb = Given (Some e) ->
       UserCreate.b_role cb <> Given None ->
       ((exists user, UserCreate.validate cb = Return user) <->
        (2 <= length n <= 50)%nat /\
        (forall a, UserCreate.b_age cb = Given (Some a) -> 0 <= a <= 120))) /\
    ((forall n, UserUpdate.name b = Given (Some n) -> (2 <= length n <= 50)%nat) ->
     (forall a, UserUpdate.age b = Given (Some a) -> 0 <= a <= 120) ->
     exists updated,
       put_user user_id b d = (Return updated, <[i := updated]> d) /\
       update_user user_id b d = (Return updated, <[i := updated]> d) /\
       User.id updated = User.id existing /\
       (forall v, UserUpdate.name b = Given v -> User.name updated = v) /\
       (forall v, UserUpdate.email b = Given v -> User.email updated = v) /\
       (forall v, UserUpdate.age b = Given v -> User.age updated = v) /\
       (forall v, UserUpdate.role b = Given v -> User.role updated = v) /\
       (forall v, UserUpdate.is_active b = Given v -> User.is_active updated = v) /\
       (UserUpdate.name b = Unset -> User.name updated = User.name existing) /\
       (UserUpdate.email b = Unset -> User.email updated = User.email existing) /\
       (UserUpdate.age b = Unset -> User.age updated = User.age existing) /\
       (UserUpdate.role b = Unset -> User.role updated = User.role existing) /\
       (UserUpdate.is_active b = Unset ->
        User.is_active updated = User.is_active existing) /\
       (forall v, b = UserUpdate.mk Unset Unset (Given v) Unset Unset ->
        updated = User.mk (User.id existing) (User.name existing) (User.email existing)
                    v (User.role existing) (User.is_active existing))).
Proof.
  intros Hin. destruct (find_user_present _ _ Hin) as (i & existing & E).
  exists i, existing.
  pose proof (proj1 (find_user_Some _ _ _ _) E) as (Hi & Hid & Hmin).
  split; [exact Hi|]. split; [exact Hid|]. split; [exact Hmin|].
  split; [|split].
  - intros Hnot. unfold put_user. rewrite (validate_update_Raise b Hnot). reflexivity.
  - intros cb n e Hn He Hr. unfold UserCreate.validate. rewrite Hn, He.
    split.
    + intros [user Hv].
      destruct (check_name n) eqn:Cn; [|discriminate].
      split; [apply check_name_spec, Cn|].
      intros a Ha. rewrite Ha in Hv.
      destruct (check_age a) eqn:Ca; [apply check_age_spec, Ca|].
      destruct (UserCreate.b_role cb) as [|[r|]]; discriminate.
    + intros [Hlen Hage]. rewrite (proj2 (check_name_spec n) Hlen).
      destruct (UserCreate.b_age cb) as [|[a|]];
        [ | rewrite (proj2 (check_age_spec a) (Hage a eq_refl)) | ];
        (destruct (UserCreate.b_role cb) as [|[r|]]; [ | | congruence]);
        eexists; reflexivity.
  - intros Hname Hage. exists (copy_update existing b).
    unfold put_user. rewrite (validate_update_Return b Hname Hage).
    unfold update_user. rewrite E.
    split; [reflexivity|]. split; [reflexivity|]. split; [reflexivity|].
    unfold copy_update; simpl.
    repeat split; try (intros v Hv; rewrite Hv; reflexivity);
      try (intros Hv; rewrite Hv; reflexivity).
Qed.

Lemma update_user_merges_witness :
  let b := UserUpdate.mk Unset Unset (Given (Some 26)) Unset Unset in
  1 ∈ ids users_db /\
  exists i existing updated,
    users_db !! i = Some existing /\ User.id existing = 1 /\
    put_user 1 b users_db = (Return updated, <[i := updated]> users_db) /\
    updated = User.mk (User.id existing) (User.name existing) (User.email existing)
                (Some 26) (User.role existing) (User.is_active existing).
Proof.
  intros b.
  assert (Hin : 1 ∈ ids users_db) by (apply (bool_decide_unpack _); vm_compute; exact I).
  split; [exact Hin|].
  destruct (update_user_merges 1 b users_db Hin)
    as (i & existing & Hi & Hid & Hmin & _ & _ & Hok).
  destruct Hok as (updated & Hput & Hrest).
  - intros n Hn. discriminate Hn.
  - intros a Ha. inversion Ha. lia.
  - exists i, existing, updated.
    split; [exact Hi|]. split; [exact Hid|]. split; [exact Hput|].
    apply Hrest. reflexivity.
Defined.

(** C9. A field that the body of [PUT /users/{user_id}] supplies as null is
    a supplied field: for a present id and a body that passes validation,
    each of [name], [email], [age], [role], [is_active] that the body gives
    as null is null in the returned record, and that record is what a
    following get of the id returns.  So a stored name can be null, whereas
    every record returned by create has a name string of length in
    [2,50]. *)
Theorem update_user_explicit_null (user_id : Z) (b : UserUpdate.t) (d : db) :
  user_id ∈ ids d ->
  (forall n, UserUpdate.name b = Given (Some n) -> (2 <= length n <= 50)%nat) ->
  (forall a, UserUpdate.age b = Given (Some a) -> 0 <= a <= 120) ->
  (exists updated d',
     put_user user_id b d = (Return updated, d') /\
     get_user user_id d' = (Return updated, d') /\
     (UserUpdate.name b = Given None -> User.name updated = None) /\
     (UserUpdate.email b = Given None -> User.email updated = None) /\
     (UserUpdate.age b = Given None -> User.age updated = None) /\
     (UserUpdate.role b = Given None -> User.role updated = None) /\
     (UserUpdate.is_active b = Given None -> User.is_active updated = None)) /\
  (forall cb d0 d1 u,
     post_users cb d0 = (Return u, d1) ->
     exists n, User.name u = Some n /\ (2 <= length n <= 50)%nat).
Proof.
  intros Hin Hname Hage. split.
  - destruct (find_user_present _ _ Hin) as (i & existing & E).
    exists (copy_update existing b), (<[i := copy_update existing b]> d).
    unfold put_user. rewrite (validate_update_Return b Hname Hage).
    unfold update_user. rewrite E. split; [reflexivity|]. split.
    + unfold get_user.
      rewrite (find_user_insert user_id d i existing (copy_update existing b) E).
      * reflexivity.
      * simpl. apply find_user_Some in E as (_ & Hid & _). exact Hid.
    + unfold copy_update; simpl.
      repeat split; intros Hv; rewrite Hv; reflexivity.
  - intros cb d0 d1 u H. eapply post_users_Return_name, H.
Qed.

Lemma update_user_explicit_null_witness :
  let b := UserUpdate.mk (Given None) Unset Unset Unset Unset in
  2 ∈ ids users_db /\
  exists updated d',
    put_user 2 b users_db = (Return updated, d') /\
    get_user 2 d' = (Return updated, d') /\
    User.name updated = None.
Proof.
  intros b.
  assert (Hin : 2 ∈ ids users_db) by (apply (bool_decide_unpack _); vm_compute; exact I).
  split; [exact Hin|].
  destruct (update_user_explicit_null 2 b users_db Hin) as [Hupd _].
  - intros n Hn. discriminate Hn.
  - intros a Ha. discriminate Ha.
  - destruct Hupd as (updated & d' & Hput & Hget & Hnull & _).
    exists updated, d'. split; [exact Hput|]. split; [exact Hget|].
    apply Hnull. reflexivity.
Defined.

(** ** Delete *)

(** C6. [DELETE /users/{user_id}] fails with NotFound exactly when the id is
    absent, and then leaves the collection as it was.  When the id is
    present, the collection is [before ++ u :: after] with [u] the first
    record carrying that id, and the request leaves [before ++ after]: one
    record fewer.  It returns a message whose text contains the decimal form
    of the id and whose status code is 200.  With pairwise distinct ids, as
    in every reachable collection, a following get of the id fails with
    NotFound. *)
Theorem delete_user_removes (user_id : Z) (d : db) :
  (fst (delete_user user_id d) = Raise NotFound <-> user_id ∉ ids d) /\
  (user_id ∉ ids d -> delete_user user_id d = (Raise NotFound, d)) /\
  (user_id ∈ ids d ->
   exists before u after m,
     d = before ++ u :: after /\
     User.id u = user_id /\
     (user_id ∉ ids before) /\
     delete_user user_id d = (Return m, before ++ after) /\
     S (length (before ++ after)) = length d /\
     Message.status_code m = 200 /\
     (exists pre suf, Message.message m = pre ++ str_of_int user_id ++ suf) /\
     (ids_unique d ->
      get_user user_id (before ++ after) = (Raise NotFound, before ++ after)) /\
     (reachable d ->
      get_user user_id (before ++ after) = (Raise NotFound, before ++ after))).
Proof.
  assert (Habsent : user_id ∉ ids d -> delete_user user_id d = (Raise NotFound, d)).
  { intros Hn. unfold delete_user.
    rewrite (proj2 (find_user_None user_id d) Hn). reflexivity. }
  assert (Hpresent : user_id ∈ ids d ->
    exists before u after m,
     d = before ++ u :: after /\
     User.id u = user_id /\
     (user_id ∉ ids before) /\
     delete_user user_id d = (Return m, before ++ after) /\
     S (length (before ++ after)) = length d /\
     Message.status_code m = 200 /\
     (exists pre suf, Message.message m = pre ++ str_of_int user_id ++ suf) /\
     (ids_unique d ->
      get_user user_id (before ++ after) = (Raise NotFound, before ++ after))).
  { intros Hin. destruct (find_user_present _ _ Hin) as (i & u & E).
    destruct (find_user_split _ _ _ _ E) as (Hd & Hdel & Hid & Hbefore).
    exists (take i d), u, (drop (S i) d).
    eexists. split; [exact Hd|]. split; [exact Hid|]. split; [exact Hbefore|].
    split; [|split; [|split; [|split]]].
    - unfold delete_user. rewrite E. simpl. rewrite Hdel. reflexivity.
    - rewrite Hd at 3. rewrite !length_app. simpl. lia.
    - reflexivity.
    - exists deleted_prefix, deleted_suffix. reflexivity.
    - intros Hu. unfold get_user.
      assert (Hn : user_id ∉ ids (take i d ++ drop (S i) d)).
      { unfold ids_unique in Hu. rewrite Hd in Hu. unfold ids in *.
        rewrite fmap_app in *. rewrite fmap_cons in Hu.
        apply NoDup_app in Hu as (_ & Hdisj & Htail).
        apply NoDup_cons in Htail as [Hafter _].
        rewrite Hid in Hafter.
        rewrite elem_of_app. intros [H|H]; [exact (Hbefore H) | exact (Hafter H)]. }
      rewrite (proj2 (find_user_None _ _) Hn). reflexivity. }
  split; [|split].
  - split.
    + intros Hf Hin. destruct (Hpresent Hin) as (? & ? & ? & ? & _ & _ & _ & Hdel & _).
      rewrite Hdel in Hf. discriminate Hf.
    + intros Hn. rewrite (Habsent Hn). reflexivity.
  - exact Habsent.
  - intros Hin.
    destruct (Hpresent Hin) as (before & u & after & m & H1 & H2 & H3 & H4 & H5 & H6 & H7 & H8).
    exists before, u, after, m.
    do 8 (split; [assumption|]).
    intros Hr. apply H8, reachable_unique, Hr.
Qed.

Lemma delete_user_removes_witness :
  2 ∈ ids users_db /\
  exists before u after m,
    users_db = before ++ u :: after /\
    User.id u = 2 /\
    delete_user 2 users_db = (Return m, before ++ after) /\
    S (length (before ++ after)) = length users_db /\
    Message.status_code m = 200 /\
    get_user 2 (before ++ after) = (Raise NotFound, before ++ after).
Proof.
  assert (Hin : 2 ∈ ids users_db) by (apply (bool_decide_unpack _); vm_compute; exact I).
  split; [exact Hin|].
  destruct (delete_user_removes 2 users_db) as (_ & _ & Hpresent).
  destruct (Hpresent Hin)
    as (before & u & after & m & H1 & H2 & _ & H4 & H5 & H6 & _ & _ & H9).
  exists before, u, after, m.
  do 5 (split; [assumption|]).
  apply H9. exact reachable_seed.
Defined.

(** ** Search *)

Lemma comprehension_Return cond (l r : list User.t) :
  comprehension cond l = Return r ->
  r = List.filter (fun u => match cond u with Return b => b | Raise _ => false end) l.
Proof.
  revert r. induction l as [|u l IH]; simpl; intros r H.
  - inversion H. reflexivity.
  - destruct (cond u) as [b|e]; [|discriminate].
    destruct (comprehension cond l) as [r'|e]; [|discriminate].
    inversion H; subst. rewrite <- (IH r' eq_refl). destruct b; reflexivity.
Qed.

Lemma elem_of_List_filter (p : User.t -> bool) (l : list User.t) u :
  u ∈ List.filter p l <-> u ∈ l /\ p u = true.
Proof. rewrite !list_elem_of_In. apply filter_In. Qed.

(** What the code selects: a record is in the result exactly when it is in
    the collection and passes every filter in force.  The name filter is in
    force for a non-empty [name]; an age filter passes a record whose age is
    an integer other than zero and on the right side of the bound. *)
Lemma search_users_selects lower name role min_age max_age (d r : list User.t) :
  search_users lower name role min_age max_age d = (Return r, d) ->
  forall u,
    u ∈ r <->
    u ∈ d /\
    (forall c n, name = Some (c :: n) ->
       exists s, User.name u = Some s /\ contains (lower (c :: n)) (lower s) = true) /\
    (forall x, role = Some x -> User.role u = Some x) /\
    (forall m, min_age = Some m -> exists a, User.age u = Some a /\ a <> 0 /\ m <= a) /\
    (forall m, max_age = Some m -> exists a, User.age u = Some a /\ a <> 0 /\ a <= m).
Proof.
  unfold search_users. intros H u.
  set (named := match name with
                | Some (c :: n) => comprehension (name_matches lower (c :: n)) d
                | _ => Return d
                end) in H.
  destruct named as [l0|e] eqn:E0; [|discriminate].
  inversion H as [Hr]; clear H Hr.
  assert (H0 : u ∈ l0 <-> u ∈ d /\
             (forall c n, name = Some (c :: n) ->
                exists s, User.name u = Some s /\
                          contains (lower (c :: n)) (lower s) = true)).
  { subst named. destruct name as [[|c n]|].
    - inversion E0; subst. split; [intros Hu; split; [exact Hu | discriminate] | tauto].
    - apply comprehension_Return in E0. subst l0.
      rewrite elem_of_List_filter. unfold name_matches.
      split.
      + intros [Hu Hm]. split; [exact Hu|]. intros c' n' Hc. inversion Hc; subst.
        destruct (User.name u) as [s|]; [|discriminate]. eauto.
      + intros [Hu Hm]. split; [exact Hu|].
        destruct (Hm c n eq_refl) as (s & -> & Hs). exact Hs.
    - inversion E0; subst. split; [intros Hu; split; [exact Hu | discriminate] | tauto]. }
  assert (Hrole : forall l1 : list User.t,
             u ∈ match role with Some x => List.filter (role_is x) l1 | None => l1 end <->
             u ∈ l1 /\ (forall x, role = Some x -> User.role u = Some x)).
  { intros l1. destruct role as [x|].
    - rewrite elem_of_List_filter. unfold role_is. rewrite bool_decide_eq_true.
      split; intros [Hu Hx]; (split; [exact Hu|]).
      + intros x' Hx'. inversion Hx'; subst. exact Hx.
      + apply Hx. reflexivity.
    - split; [intros Hu; split; [exact Hu | discriminate] | tauto]. }
  assert (Hmin : forall l1 : list User.t,
             u ∈ match min_age with Some m => List.filter (age_at_least m) l1 | None => l1 end <->
             u ∈ l1 /\
             (forall m, min_age = Some m -> exists a, User.age u = Some a /\ a <> 0 /\ m <= a)).
  { intros l1. destruct min_age as [m|].
    - rewrite elem_of_List_filter. unfold age_at_least.
      split; intros [Hu Hx]; (split; [exact Hu|]).
      + intros m' Hm'. inversion Hm'; subst.
        destruct (User.age u) as [a|]; [|discriminate].
        destruct (Z.eqb_spec a 0); [discriminate|].
        exists a. split; [reflexivity|]. split; [assumption|]. apply Z.leb_le, Hx.
      + destruct (Hx m eq_refl) as (a & -> & Hne & Hle).
        destruct (Z.eqb_spec a 0); [contradiction|]. apply Z.leb_le, Hle.
    - split; [intros Hu; split; [exact Hu | discriminate] | tauto]. }
  assert (Hmax : forall l1 : list User.t,
             u ∈ match max_age with Some m => List.filter (age_at_most m) l1 | None => l1 end <->
             u ∈ l1 /\
             (forall m, max_age = Some m -> exists a, User.age u = Some a /\ a <> 0 /\ a <= m)).
  { intros l1. destruct max_age as [m|].
    - rewrite elem_of_List_filter. unfold age_at_most.
      split; intros [Hu Hx]; (split; [exact Hu|]).
      + intros m' Hm'. inversion Hm'; subst.
        destruct (User.age u) as [a|]; [|discriminate].
        destruct (Z.eqb_spec a 0); [discriminate|].
        exists a. split; [reflexivity|]. split; [assumption|]. apply Z.leb_le, Hx.
      + destruct (Hx m eq_refl) as (a & -> & Hne & Hle).
        destruct (Z.eqb_spec a 0); [contradiction|]. apply Z.leb_le, Hle.
    - split; [intros Hu; split; [exact Hu | discriminate] | tauto]. }
  rewrite Hmax, Hmin, Hrole, H0. tauto.
Qed.

(** Searching the seed collection with [min_age=26] returns exactly the
    record aged 30. *)
Example search_users_seed_min_age_26 lower :
  search_users lower None None (Some 26) None users_db =
  (Return [ User.mk 2 (Some [51060; 50689; 55148]%N)
              (Some (str_of_string "lee@example.com")) (Some 30) (Some ADMIN) (Some true) ],
   users_db).
Proof. reflexivity. Qed.

(** C2. The search does not return every record that passes the supplied
    filters.  Creating a user with [age = 0], a valid age, on the seed
    collection stores a record whose age is present and equal to 0; a search
    with [min_age = 0] on the resulting collection returns the three seed
    records and leaves the new record out, although its age is present and
    [0 >= 0] holds.  The condition [u.age and u.age >= min_age] takes an age
    of zero for a missing one. *)
Theorem search_users_drops_age_zero lower :
  let b := UserCreate.mkbody (Given (Some (str_of_string "Baby")))
             (Given (Some (str_of_string "baby@example.com"))) (Given (Some 0)) Unset in
  let u := User.mk 4 (Some (str_of_string "Baby"))
             (Some (str_of_string "baby@example.com")) (Some 0) (Some USER) (Some true) in
  let d := users_db ++ [u] in
  post_users b users_db = (Return u, d) /\
  u ∈ d /\
  User.age u = Some 0 /\
  search_users lower None None (Some 0) None d = (Return users_db, d) /\
  (u ∉ users_db) /\
  search_users lower None None None (Some 120) d = (Return users_db, d).
Proof.
  intros b u d. split; [reflexivity|].
  split; [apply list_elem_of_In; vm_compute; tauto|].
  split; [reflexivity|]. split; [reflexivity|].
  split; [|reflexivity].
  intros Hin. apply list_elem_of_In in Hin. vm_compute in Hin.
  repeat (destruct Hin as [Hin|Hin]; [discriminate Hin|]). exact Hin.
Qed.

(** C8. With no parameter supplied, the search returns the whole collection,
    in the same order, raises nothing and leaves the collection as it was,
    whatever the collection is. *)
Theorem search_users_no_parameters lower (d : db) :
  search_users lower None None None None d = (Return d, d).
Proof. reflexivity. Qed.

(** C10. An empty [name] is the same as no [name]: with any other
    parameters the search gives what it gives without a name, and with no
    other parameter it returns the whole collection; a stored name that is
    null does not make it fail. *)
Theorem search_users_empty_name lower (d : db) :
  (forall role min_age max_age,
     search_users lower (Some []) role min_age max_age d =
     search_users lower None role min_age max_age d) /\
  search_users lower (Some []) None None None d = (Return d, d).
Proof. split; [intros role min_age max_age|]; reflexivity. Qed.

(** ** Statistics *)

Lemma length_List_filter_active (d : list User.t) :
  length (List.filter (fun u => truthy_bool (User.is_active u)) d) =
  length (filter (fun u => User.is_active u = Some true) d).
Proof.
  induction d as [|u d IH]; [reflexivity|].
  rewrite filter_cons. cbn [List.filter].
  destruct (decide (User.is_active u = Some true)) as [H|H].
  - rewrite H. cbn [truthy_bool length]. f_equal. exact IH.
  - destruct (User.is_active u) as [[|]|]; cbn [truthy_bool];
      [contradiction H; reflexivity | exact IH | exact IH].
Qed.

Lemma foldl_count_role (d : list User.t) (m : gmap (option UserRole) Z) r :
  foldl count_role m d !! r =
  let n := length (filter (fun u => User.role u = r) d) in
  match m !! r with
  | Some k => Some (k + Z.of_nat n)
  | None => if decide (n = 0%nat) then None else Some (Z.of_nat n)
  end.
Proof.
  revert m. induction d as [|u d IH]; intros m; simpl.
  - destruct (m !! r) as [k|]; [f_equal; lia | reflexivity].
  - rewrite IH. clear IH. unfold count_role. rewrite filter_cons.
    destruct (decide (User.role u = r)) as [Hr|Hr].
    + subst r. rewrite lookup_insert_eq. simpl.
      destruct (m !! User.role u) as [k|]; simpl.
      * f_equal. lia.
      * f_equal. lia.
    + rewrite lookup_insert_ne by exact Hr. reflexivity.
Qed.

(** C7. For every collection, [GET /stats] leaves the collection as it was
    and returns: as total the length of the collection; as active count the
    number of records whose [is_active] is true; as inactive count the total
    minus the active count; and a mapping in which a role is a key exactly
    when some record holds it, the value being the number of records that
    hold it.  On the seed collection the result is total 3, active 3,
    inactive 0 and the mapping user to 2, admin to 1. *)
Theorem get_stats_counts :
  (forall d : db, exists s,
     get_stats d = (Return s, d) /\
     Stats.total_users s = Z.of_nat (length d) /\
     Stats.active_users s =
       Z.of_nat (length (filter (fun u => User.is_active u = Some true) d)) /\
     Stats.inactive_users s = Stats.total_users s - Stats.active_users s /\
     (forall r,
        is_Some (Stats.role_distribution s !! r) <-> exists u, u ∈ d /\ User.role u = r) /\
     (forall r n,
        Stats.role_distribution s !! r = Some n ->
        n = Z.of_nat (length (filter (fun u => User.role u = r) d)))) /\
  get_stats users_db =
    (Return (Stats.mk 3 3 0 (<[Some USER := 2]> (<[Some ADMIN := 1]> ∅))), users_db).
Proof.
  split.
  - intros d. eexists. split; [reflexivity|]. simpl.
    split; [reflexivity|]. split; [rewrite length_List_filter_active; reflexivity|].
    split; [reflexivity|].
    assert (Hlook := fun r => foldl_count_role d ∅ r).
    split.
    + intros r. rewrite Hlook, lookup_empty. simpl.
      destruct (decide (length (filter (fun u => User.role u = r) d) = 0%nat)) as [Hz|Hnz].
      * split; [intros [x Hx]; discriminate Hx|].
        intros (u & Hu & Hr). exfalso.
        apply length_zero_iff_nil in Hz.
        assert (Hin : u ∈ filter (fun u => User.role u = r) d)
          by (apply list_elem_of_filter; split; assumption).
        rewrite Hz in Hin. inversion Hin.
      * split; [|intros _; eexists; reflexivity].
        intros _.
        destruct (filter (fun u => User.role u = r) d) as [|u l] eqn:E;
          [contradiction Hnz; reflexivity|].
        assert (Hin : u ∈ filter (fun u => User.role u = r) d) by (rewrite E; left).
        apply list_elem_of_filter in Hin as [Hr Hu]. exists u. split; assumption.
    + intros r n. rewrite Hlook, lookup_empty. simpl.
      destruct (decide (length (filter (fun u => User.role u = r) d) = 0%nat));
        [discriminate|]. intros H. inversion H. reflexivity.
  - reflexivity.
Qed.

(** * Further properties of the handlers *)

(** ** Looking a record up *)

Lemma find_user_cons user_id u (d : list User.t) :
  snd <$> find_user user_id (u :: d) =
  if decide (User.id u = user_id) then Some u else snd <$> find_user user_id d.
Proof.
  unfold find_user. cbn [list_find].
  destruct (decide (User.id u = user_id)); [reflexivity|].
  destruct (list_find _ d) as [[j y]|]; reflexivity.
Qed.

Lemma find_user_insert_other user_id (d : list User.t) i u u' :
  d !! i = Some u -> User.id u <> user_id -> User.id u' <> user_id ->
  snd <$> find_user user_id (<[i := u']> d) = snd <$> find_user user_id d.
Proof.
  revert i. induction d as [|x d IH]; intros i Hi Hu Hu'; [reflexivity|].
  destruct i as [|i]; simpl in Hi.
  - inversion Hi; subst x. cbn [insert list_insert]. rewrite !find_user_cons.
    rewrite !decide_False by assumption. reflexivity.
  - change (<[S i := u']> (x :: d)) with (x :: <[i := u']> d).
    rewrite !find_user_cons. destruct (decide (User.id x = user_id)); [reflexivity|].
    apply IH; assumption.
Qed.

Lemma find_user_delete_other user_id (d : list User.t) i u :
  d !! i = Some u -> User.id u <> user_id ->
  snd <$> find_user user_id (delete i d) = snd <$> find_user user_id d.
Proof.
  revert i. induction d as [|x d IH]; intros i Hi Hu; [reflexivity|].
  destruct i as [|i]; simpl in Hi.
  - inversion Hi; subst x. cbn [delete list_delete]. rewrite find_user_cons.
    rewrite decide_False by assumption. reflexivity.
  - change (delete (S i) (x :: d)) with (x :: delete i d).
    rewrite !find_user_cons. destruct (decide (User.id x = user_id)); [reflexivity|].
    apply IH; assumption.
Qed.

Lemma find_user_snoc_other user_id (d : list User.t) u :
  User.id u <> user_id ->
  snd <$> find_user user_id (d ++ [u]) = snd <$> find_user user_id d.
Proof.
  intros Hu. induction d as [|x d IH].
  - cbn [app]. rewrite find_user_cons, decide_False by assumption. reflexivity.
  - change ((x :: d) ++ [u]) with (x :: (d ++ [u])).
    rewrite !find_user_cons. destruct (decide (User.id x = user_id)); [reflexivity|].
    exact IH.
Qed.

Lemma find_user_unique (d : list User.t) u :
  ids_unique d -> u ∈ d -> snd <$> find_user (User.id u) d = Some u.
Proof.
  unfold ids_unique, ids. induction d as [|x d IH]; intros Hnd Hin.
  - inversion Hin.
  - rewrite fmap_cons in Hnd. apply NoDup_cons in Hnd as [Hx Hnd].
    rewrite find_user_cons. apply elem_of_cons in Hin as [->|Hin].
    + rewrite decide_True by reflexivity. reflexivity.
    + rewrite decide_False; [apply IH; assumption|].
      intros Heq. apply Hx. rewrite Heq. apply list_elem_of_fmap. eauto.
Qed.

(** X1. [GET /users/{user_id}] never changes the collection; it raises
    NotFound exactly when no record has the id; a record it returns is in
    the collection and carries the id; and when ids are pairwise distinct,
    every record of the collection is what a get of its own id returns. *)
Theorem get_user_lookup (d : db) :
  (forall user_id, snd (get_user user_id d) = d) /\
  (forall user_id, get_user user_id d = (Raise NotFound, d) <-> user_id ∉ ids d) /\
  (forall user_id u,
     get_user user_id d = (Return u, d) -> u ∈ d /\ User.id u = user_id) /\
  (ids_unique d -> forall u, u ∈ d -> get_user (User.id u) d = (Return u, d)).
Proof.
  split; [|split; [|split]].
  - intros user_id. unfold get_user. destruct (snd <$> find_user user_id d); reflexivity.
  - intros user_id. unfold get_user. rewrite <- find_user_None.
    destruct (find_user user_id d) as [[i u]|]; simpl.
    + split; discriminate.
    + split; reflexivity.
  - intros user_id u. unfold get_user.
    destruct (find_user user_id d) as [[i x]|] eqn:E; simpl; [|discriminate].
    intros H. inversion H; subst x.
    apply find_user_Some in E as (Hi & Hid & _).
    split; [eapply list_elem_of_lookup_2, Hi | exact Hid].
  - intros Hnd u Hin. unfold get_user. rewrite (find_user_unique d u Hnd Hin). reflexivity.
Qed.

(** ** Update: errors, no-op, repetition, other records *)

(** X2. [PUT /users/{user_id}] checks the body before it looks the id up: a
    body with a name string of length outside [2,50] or an age integer
    outside [0,120] fails with ValidationError whether or not the id exists;
    a body that passes fails with NotFound when the id is absent.  In both
    cases the collection is left as it was. *)
Theorem put_user_errors (user_id : Z) (b : UserUpdate.t) (d : db) :
  ((exists n, UserUpdate.name b = Given (Some n) /\ ((length n < 2)%nat \/ (50 < length n)%nat)) \/
   (exists a, UserUpdate.age b = Given (Some a) /\ (a < 0 \/ 120 < a)) ->
   put_user user_id b d = (Raise ValidationError, d)) /\
  ((forall n, UserUpdate.name b = Given (Some n) -> (2 <= length n <= 50)%nat) ->
   (forall a, UserUpdate.age b = Given (Some a) -> 0 <= a <= 120) ->
   user_id ∉ ids d ->
   put_user user_id b d = (Raise NotFound, d)).
Proof.
  split.
  - intros Hbad. unfold put_user. rewrite validate_update_Raise; [reflexivity|].
    intros [Hn Ha]. destruct Hbad as [(n & En & Hlen)|(a & Ea & Hrange)].
    + specialize (Hn n En). lia.
    + specialize (Ha a Ea). lia.
  - intros Hn Ha Habs. unfold put_user.
    rewrite (validate_update_Return b Hn Ha). unfold update_user.
    rewrite (proj2 (find_user_None user_id d) Habs). reflexivity.
Qed.

Lemma put_user_errors_witness :
  let bad := UserUpdate.mk (Given (Some (str_of_string "A"))) Unset Unset Unset Unset in
  let ok := UserUpdate.mk Unset Unset (Given (Some 40)) Unset Unset in
  put_user 9 bad users_db = (Raise ValidationError, users_db) /\
  put_user 9 ok users_db = (Raise NotFound, users_db).
Proof.
  intros bad ok. split.
  - apply (proj1 (put_user_errors 9 bad users_db)).
    left. exists (str_of_string "A"). split; [reflexivity | left; simpl; lia].
  - apply (proj2 (put_user_errors 9 ok users_db)).
    + intros n Hn. discriminate Hn.
    + intros a Ha. inversion Ha. lia.
    + apply (bool_decide_unpack _). vm_compute. exact I.
Defined.

Lemma merge_twice {A} (f : field A) (old : option A) :
  merge f (merge f old) = merge f old.
Proof. destruct f; reflexivity. Qed.

Lemma copy_update_twice u b : copy_update (copy_update u b) b = copy_update u b.
Proof. unfold copy_update. simpl. rewrite !merge_twice. reflexivity. Qed.

(** X3. A body that supplies no field changes nothing: when the id is
    present, [PUT /users/{user_id}] with the empty body returns the stored
    record as it is and leaves the collection as it was. *)
Theorem put_user_empty_body (user_id : Z) (d : db) (u : User.t) :
  get_user user_id d = (Return u, d) ->
  put_user user_id (UserUpdate.mk Unset Unset Unset Unset Unset) d = (Return u, d).
Proof.
  unfold get_user, put_user, update_user. simpl.
  destruct (find_user user_id d) as [[i x]|] eqn:E; simpl; [|discriminate].
  intros H. inversion H; subst x.
  apply find_user_Some in E as (Hi & _ & _).
  assert (Hcopy : copy_update u (UserUpdate.mk Unset Unset Unset Unset Unset) = u)
    by (destruct u; reflexivity).
  rewrite Hcopy, (list_insert_id d i u Hi). reflexivity.
Qed.

Lemma put_user_empty_body_witness :
  get_user 3 users_db = (Return (User.mk 3 (Some [48149; 48124; 49688]%N)
      (Some (str_of_string "park@example.com")) (Some 22) (Some USER) (Some true)), users_db) /\
  put_user 3 (UserUpdate.mk Unset Unset Unset Unset Unset) users_db =
    (Return (User.mk 3 (Some [48149; 48124; 49688]%N)
      (Some (str_of_string "park@example.com")) (Some 22) (Some USER) (Some true)), users_db).
Proof.
  split; [reflexivity|]. apply put_user_empty_body. reflexivity.
Defined.

(** X4. Sending the same update twice is the same as sending it once: the
    second request has the outcome of the first and leaves the collection
    that the first one left, whether the first succeeded or failed. *)
Theorem put_user_idempotent (user_id : Z) (b : UserUpdate.t) (d : db) :
  put_user user_id b (snd (put_user user_id b d)) = put_user user_id b d.
Proof.
  unfold put_user. destruct (UserUpdate.validate b) as [b'|e] eqn:Hv; [|reflexivity].
  assert (b' = b) as ->.
  { unfold UserUpdate.validate in Hv.
    destruct (match UserUpdate.name b with Given (Some n) => check_name n | _ => true end);
      [|discriminate].
    destruct (match UserUpdate.age b with Given (Some a) => check_age a | _ => true end);
      [|discriminate].
    inversion Hv. reflexivity. }
  unfold update_user.
  destruct (find_user user_id d) as [[i u]|] eqn:E; simpl.
  - assert (Hid : User.id (copy_update u b) = user_id).
    { simpl. apply find_user_Some in E as (_ & Hid & _). exact Hid. }
    rewrite (find_user_insert user_id d i u (copy_update u b) E Hid).
    rewrite copy_update_twice, list_insert_insert_eq. reflexivity.
  - rewrite E. reflexivity.
Qed.

(** X5. An update touches one record only: the length of the collection is
    kept, and a get of any other id returns after the request what it
    returned before it. *)
Theorem put_user_other_records (user_id other_id : Z) (b : UserUpdate.t) (d : db) :
  other_id <> user_id ->
  length (snd (put_user user_id b d)) = length d /\
  fst (get_user other_id (snd (put_user user_id b d))) = fst (get_user other_id d).
Proof.
  intros Hne. unfold put_user.
  destruct (UserUpdate.validate b) as [b'|e]; [|split; reflexivity].
  unfold update_user.
  destruct (find_user user_id d) as [[i u]|] eqn:E; simpl; [|split; reflexivity].
  split; [apply length_insert|].
  apply find_user_Some in E as (Hi & Hid & _).
  unfold get_user.
  rewrite (find_user_insert_other other_id d i u (copy_update u b' ) Hi).
  - destruct (snd <$> find_user other_id d); reflexivity.
  - rewrite Hid. auto.
  - simpl. rewrite Hid. auto.
Qed.

Lemma put_user_other_records_witness :
  let b := UserUpdate.mk Unset Unset Unset (Given (Some GUEST)) Unset in
  3 <> 1 /\
  length (snd (put_user 1 b users_db)) = length users_db /\
  fst (get_user 3 (snd (put_user 1 b users_db))) = fst (get_user 3 users_db).
Proof.
  intros b. split; [lia|]. apply put_user_other_records. lia.
Defined.

(** ** Create and delete together *)

(** X6. A record that create returns can be read back: a get of the new id
    on the collection after the request returns that record, and a get of
    any other id returns what it returned before the request. *)
Theorem post_users_then_get (b : UserCreate.body) (d d' : db) (u : User.t) :
  post_users b d = (Return u, d') ->
  get_user (User.id u) d' = (Return u, d') /\
  (forall other_id, other_id <> User.id u ->
     fst (get_user other_id d') = fst (get_user other_id d)).
Proof.
  unfold post_users. intros H.
  destruct (UserCreate.validate b) as [user|e]; [|discriminate].
  destruct (create_user_state user d) as [Hsame|(x & Hc & Hid)].
  - exfalso. unfold create_user in *.
    destruct (User.init _ _ _ _ _); [|discriminate].
    inversion H; subst. simpl in Hsame.
    apply (f_equal length) in Hsame. rewrite length_app in Hsame. simpl in Hsame. lia.
  - rewrite Hc in H. inversion H; subst x d'. clear H. split.
    + unfold get_user.
      assert (E : find_user (User.id u) (d ++ [u]) = Some (length d, u)).
      { apply find_user_Some. split; [|split].
        - rewrite lookup_app_r by lia. rewrite Nat.sub_diag. reflexivity.
        - reflexivity.
        - intros j y Hj Hlt Heq. rewrite lookup_app_l in Hj by exact Hlt.
          apply (new_id_fresh d). rewrite <- Hid, <- Heq.
          apply list_elem_of_fmap. exists y. split; [reflexivity|].
          eapply list_elem_of_lookup_2, Hj. }
      rewrite E. reflexivity.
    + intros other_id Hne. unfold get_user.
      rewrite find_user_snoc_other by auto.
      destruct (snd <$> find_user other_id d); reflexivity.
Qed.

Lemma post_users_then_get_witness :
  let b := UserCreate.mkbody (Given (Some (str_of_string "Dana")))
             (Given (Some (str_of_string "dana@example.com"))) Unset (Given (Some GUEST)) in
  let u := User.mk 4 (Some (str_of_string "Dana"))
             (Some (str_of_string "dana@example.com")) None (Some GUEST) (Some true) in
  post_users b users_db = (Return u, users_db ++ [u]) /\
  get_user (User.id u) (users_db ++ [u]) = (Return u, users_db ++ [u]).
Proof.
  intros b u. split; [reflexivity|].
  apply (proj1 (post_users_then_get b users_db (users_db ++ [u]) u eq_refl)).
Defined.

(** X7. Deleting the record that a create has just added gives back the
    collection from before the create, so the next create hands out the same
    id again: ids of deleted records are reused when they were the largest. *)
Theorem post_users_then_delete (b b' : UserCreate.body) (d d1 : db) (u : User.t) :
  post_users b d = (Return u, d1) ->
  snd (delete_user (User.id u) d1) = d /\
  (exists m, fst (delete_user (User.id u) d1) = Return m) /\
  (forall u' d3,
     post_users b' (snd (delete_user (User.id u) d1)) = (Return u', d3) ->
     User.id u' = User.id u).
Proof.
  intros H.
  assert (Hd1 : d1 = d ++ [u] /\ User.id u = new_id d).
  { unfold post_users in H.
    destruct (UserCreate.validate b) as [user|e]; [|discriminate].
    destruct (create_user_state user d) as [Hsame|(x & Hc & Hid)].
    - exfalso. unfold create_user in *.
      destruct (User.init _ _ _ _ _); [|discriminate].
      inversion H; subst. simpl in Hsame.
      apply (f_equal length) in Hsame. rewrite length_app in Hsame. simpl in Hsame. lia.
    - rewrite Hc in H. inversion H; subst. split; [reflexivity | exact Hid]. }
  destruct Hd1 as [-> Hid].
  assert (E : find_user (User.id u) (d ++ [u]) = Some (length d, u)).
  { apply find_user_Some. split; [|split].
    - rewrite lookup_app_r by lia. rewrite Nat.sub_diag. reflexivity.
    - reflexivity.
    - intros j y Hj Hlt Heq. rewrite lookup_app_l in Hj by exact Hlt.
      apply (new_id_fresh d). rewrite <- Hid, <- Heq.
      apply list_elem_of_fmap. exists y. split; [reflexivity|].
      eapply list_elem_of_lookup_2, Hj. }
  assert (Hdel : snd (delete_user (User.id u) (d ++ [u])) = d).
  { unfold delete_user. rewrite E. simpl.
    rewrite delete_take_drop, take_app_length.
    rewrite drop_ge by (rewrite length_app; simpl; lia). apply app_nil_r. }
  split; [exact Hdel|]. split.
  - unfold delete_user. rewrite E. simpl. eexists. reflexivity.
  - rewrite Hdel. intros u' d3 H'. unfold post_users in H'.
    destruct (UserCreate.validate b') as [user'|e]; [|discriminate].
    destruct (create_user_state user' d) as [Hsame|(x & Hc & Hid')].
    + exfalso. unfold create_user in *.
      destruct (User.init _ _ _ _ _); [|discriminate].
      inversion H'; subst. simpl in Hsame.
      apply (f_equal length) in Hsame. rewrite length_app in Hsame. simpl in Hsame. lia.
    + rewrite Hc in H'. inversion H'; subst. congruence.
Qed.

Lemma post_users_then_delete_witness :
  let b := UserCreate.mkbody (Given (Some (str_of_string "Dana")))
             (Given (Some (str_of_string "dana@example.com"))) Unset Unset in
  let u := User.mk 4 (Some (str_of_string "Dana"))
             (Some (str_of_string "dana@example.com")) None (Some USER) (Some true) in
  post_users b users_db = (Return u, users_db ++ [u]) /\
  snd (delete_user (User.id u) (users_db ++ [u])) = users_db.
Proof.
  intros b u. split; [reflexivity|].
  apply (proj1 (post_users_then_delete b b users_db (users_db ++ [u]) u eq_refl)).
Defined.

(** X8. A delete touches one record only: a get of any other id returns
    after the request what it returned before it, and deleting an id twice
    fails the second time with NotFound when ids are pairwise distinct. *)
Theorem delete_user_other_records (user_id other_id : Z) (d : db) :
  other_id <> user_id ->
  fst (get_user other_id (snd (delete_user user_id d))) = fst (get_user other_id d) /\
  (ids_unique d ->
   fst (delete_user user_id (snd (delete_user user_id d))) = Raise NotFound).
Proof.
  intros Hne. unfold delete_user.
  destruct (find_user user_id d) as [[i u]|] eqn:E; simpl.
  - pose proof (find_user_split _ _ _ _ E) as (Hd & Hdel & Hid & Hbefore).
    apply find_user_Some in E as (Hi & _ & _). split.
    + unfold get_user. rewrite (find_user_delete_other other_id d i u Hi).
      * destruct (snd <$> find_user other_id d); reflexivity.
      * rewrite Hid. auto.
    + intros Hu.
      assert (Hn : user_id ∉ ids (delete i d)).
      { rewrite Hdel. unfold ids_unique in Hu. rewrite Hd in Hu. unfold ids in *.
        rewrite fmap_app in *. rewrite fmap_cons in Hu.
        apply NoDup_app in Hu as (_ & _ & Htail).
        apply NoDup_cons in Htail as [Hafter _]. rewrite Hid in Hafter.
        rewrite elem_of_app. intros [H|H]; [exact (Hbefore H) | exact (Hafter H)]. }
      rewrite (proj2 (find_user_None _ _) Hn). reflexivity.
  - split; [reflexivity|]. intros _. rewrite E. reflexivity.
Qed.

Lemma delete_user_other_records_witness :
  1 <> 2 /\
  fst (get_user 1 (snd (delete_user 2 users_db))) = fst (get_user 1 users_db).
Proof.
  split; [lia|]. apply (proj1 (delete_user_other_records 2 1 users_db ltac:(lia))).
Defined.

(** ** What holds in every reachable collection *)

Lemma snoc_sorted (l : list Z) (y : Z) :
  StronglySorted Z.lt l -> Forall (fun x => x < y) l -> StronglySorted Z.lt (l ++ [y]).
Proof.
  intros Hs Hlt. apply StronglySorted_app_2.
  - intros x1 x2 H1 H2. apply list_elem_of_singleton in H2. subst x2.
    rewrite Forall_forall in Hlt. exact (Hlt x1 H1).
  - exact Hs.
  - repeat constructor.
Qed.

Lemma delete_sorted (l : list Z) i :
  StronglySorted Z.lt l -> StronglySorted Z.lt (delete i l).
Proof.
  revert i. induction l as [|x l IH]; intros i Hs; [exact Hs|].
  apply StronglySorted_cons in Hs as [Hx Hs].
  destruct i as [|i]; [exact Hs|].
  change (delete (S i) (x :: l)) with (x :: delete i l).
  apply StronglySorted_cons. split; [apply Forall_delete, Hx | apply IH, Hs].
Qed.

Lemma new_id_positive (d : list User.t) : Forall (fun i => 1 <= i) (ids d) -> 1 <= new_id d.
Proof.
  unfold new_id. destruct (ids d) as [|i rest]; intros H; [lia|].
  apply Forall_cons in H as [Hi _]. destruct (foldl_max_ge rest i) as [H1 _]. lia.
Qed.

Lemma foldl_max_sorted (rest : list Z) (i : Z) :
  StronglySorted Z.lt (i :: rest) -> foldl Z.max i rest = default i (last rest).
Proof.
  revert i. induction rest as [|x rest IH]; intros i Hs; [reflexivity|].
  apply StronglySorted_cons in Hs as [Hi Hs]. simpl foldl.
  apply Forall_cons in Hi as [Hix _].
  rewrite Z.max_r by lia. rewrite (IH x Hs).
  destruct rest as [|y rest]; [reflexivity|].
  rewrite (last_cons_cons x y rest).
  destruct (last (y :: rest)) eqn:E; [reflexivity|].
  apply last_None in E. discriminate E.
Qed.

Lemma post_users_state b (d : list User.t) :
  snd (post_users b d) = d \/
  exists u, post_users b d = (Return u, d ++ [u]) /\ User.id u = new_id d /\
            constraints_hold u.
Proof.
  unfold post_users. destruct (UserCreate.validate b) as [user|e] eqn:Hv; [|left; reflexivity].
  destruct (validate_create_checked _ _ Hv) as [Hn Ha].
  unfold create_user, User.init. rewrite Hn, Ha. right. eexists.
  split; [reflexivity|]. split; [reflexivity|]. split; simpl.
  - intros n H. inversion H; subst. apply check_name_spec, Hn.
  - intros a H. rewrite H in Ha. apply check_age_spec, Ha.
Qed.

Lemma copy_update_constraints u b b' :
  UserUpdate.validate b = Return b' -> constraints_hold u ->
  constraints_hold (copy_update u b').
Proof.
  unfold UserUpdate.validate. intros Hv [Hn Ha].
  destruct (match UserUpdate.name b with Given (Some n) => check_name n | _ => true end)
    eqn:Cn; [|discriminate].
  destruct (match UserUpdate.age b with Given (Some a) => check_age a | _ => true end)
    eqn:Ca; [|discriminate].
  inversion Hv; subst b'. split; simpl.
  - intros n H. destruct (UserUpdate.name b) as [|[m|]]; simpl in H.
    + exact (Hn n H).
    + inversion H; subst. apply check_name_spec, Cn.
    + discriminate.
  - intros a H. destruct (UserUpdate.age b) as [|[m|]]; simpl in H.
    + exact (Ha a H).
    + inversion H; subst. apply check_age_spec, Ca.
    + discriminate.
Qed.

(** X9. In every collection reachable from the seed the ids are strictly
    increasing along the list and at least 1; so when such a collection is
    not empty, the id that create hands out next is the id of the last
    record plus one. *)
Theorem reachable_ids_increasing (d : db) :
  reachable d ->
  StronglySorted Z.lt (ids d) /\
  Forall (fun i => 1 <= i) (ids d) /\
  (forall u, last d = Some u -> new_id d = User.id u + 1).
Proof.
  intros Hr.
  assert (H : StronglySorted Z.lt (ids d) /\ Forall (fun i => 1 <= i) (ids d)).
  { induction Hr as [|b d _ [IHs IHp]|user_id b d _ IH|user_id d _ [IHs IHp]].
    - split; apply (bool_decide_unpack _); vm_compute; exact I.
    - destruct (post_users_state b d) as [->|(u & -> & Hid & _)]; [split; assumption|].
      simpl. unfold ids. rewrite fmap_app. simpl. rewrite Hid. split.
      + apply snoc_sorted; [exact IHs|].
        apply Forall_forall. intros x Hx. apply new_id_above, Hx.
      + apply Forall_app. split; [exact IHp|].
        constructor; [apply new_id_positive, IHp | constructor].
    - rewrite put_user_ids. exact IH.
    - unfold delete_user. destruct (find_user user_id d) as [[i u]|]; simpl;
        [|split; assumption].
      rewrite ids_delete. split; [apply delete_sorted, IHs | apply Forall_delete, IHp]. }
  destruct H as [Hs Hp]. split; [exact Hs|]. split; [exact Hp|].
  intros u Hlast. unfold new_id.
  assert (Hl : last (ids d) = Some (User.id u)).
  { unfold ids. rewrite fmap_last, Hlast. reflexivity. }
  destruct (ids d) as [|i rest]; [discriminate|].
  rewrite (foldl_max_sorted rest i Hs).
  destruct rest as [|y rest].
  - inversion Hl. reflexivity.
  - rewrite (last_cons_cons i y rest) in Hl. rewrite Hl. reflexivity.
Qed.

Lemma reachable_ids_increasing_witness :
  reachable (snd (delete_user 2 users_db)) /\
  StronglySorted Z.lt (ids (snd (delete_user 2 users_db))) /\
  Forall (fun i => 1 <= i) (ids (snd (delete_user 2 users_db))).
Proof.
  assert (Hr : reachable (snd (delete_user 2 users_db)))
    by (apply reachable_delete, reachable_seed).
  split; [exact Hr|].
  destruct (reachable_ids_increasing _ Hr) as (Hs & Hp & _). split; assumption.
Defined.

(** X10. In every collection reachable from the seed, each record satisfies
    the field constraints of the models wherever the field is not null: a
    stored name string has a length in [2,50] and a stored age integer lies
    in [0,120].  Update can null a field but cannot store an out-of-range
    value. *)
Theorem reachable_constraints (d : db) :
  reachable d -> Forall constraints_hold d.
Proof.
  induction 1 as [|b d _ IH|user_id b d _ IH|user_id d _ IH].
  - unfold users_db.
    repeat (apply Forall_cons_2;
            [split; simpl; intros x Hx; inversion Hx; subst; simpl; lia|]).
    apply Forall_nil_2.
  - destruct (post_users_state b d) as [->|(u & -> & _ & Hu)]; [exact IH|].
    simpl. apply Forall_app. split; [exact IH|].
    apply Forall_cons_2; [exact Hu | apply Forall_nil_2].
  - unfold put_user. destruct (UserUpdate.validate b) as [b'|e] eqn:Hv; [|exact IH].
    unfold update_user. destruct (find_user user_id d) as [[i u]|] eqn:E; [|exact IH].
    simpl. apply Forall_insert; [exact IH|].
    apply (copy_update_constraints u b b' Hv).
    apply find_user_Some in E as (Hi & _ & _).
    rewrite Forall_forall in IH. apply IH. eapply list_elem_of_lookup_2, Hi.
  - unfold delete_user. destruct (find_user user_id d) as [[i u]|]; [|exact IH].
    simpl. apply Forall_delete, IH.
Qed.

Lemma reachable_constraints_witness :
  let b := UserUpdate.mk (Given None) Unset (Given (Some 120)) Unset Unset in
  reachable (snd (put_user 1 b users_db)) /\
  Forall constraints_hold (snd (put_user 1 b users_db)).
Proof.
  intros b.
  assert (Hr : reachable (snd (put_user 1 b users_db)))
    by (apply reachable_put, reachable_seed).
  split; [exact Hr | exact (reachable_constraints _ Hr)].
Defined.

(** ** Search: what it returns, when it raises *)

Lemma startswith_spec (needle hay : str) :
  startswith needle hay = true <-> exists suf, hay = needle ++ suf.
Proof.
  revert hay. induction needle as [|a needle IH]; intros hay; simpl.
  - split; [intros _; exists hay; reflexivity | reflexivity].
  - destruct hay as [|b hay].
    + split; [discriminate | intros [suf H]; discriminate H].
    + destruct (N.eqb_spec a b) as [->|Hne].
      * rewrite IH. split; intros [suf H]; exists suf; [rewrite H; reflexivity|].
        inversion H. reflexivity.
      * split; [discriminate|]. intros [suf H]. inversion H. congruence.
Qed.

Lemma contains_spec (needle hay : str) :
  contains needle hay = true <-> exists pre suf, hay = pre ++ needle ++ suf.
Proof.
  induction hay as [|a hay IH]; simpl.
  - rewrite orb_false_r, startswith_spec. split.
    + intros [suf H]. exists [], suf. exact H.
    + intros (pre & suf & H). destruct pre; [exists suf; exact H | discriminate H].
  - rewrite orb_true_iff, startswith_spec, IH. split.
    + intros [[suf H]|(pre & suf & H)].
      * exists [], suf. exact H.
      * exists (a :: pre), suf. rewrite H. reflexivity.
    + intros (pre & suf & H). destruct pre as [|b pre].
      * left. exists suf. exact H.
      * right. inversion H. exists pre, suf. reflexivity.
Qed.

Lemma List_filter_sublist (p : User.t -> bool) (l : list User.t) :
  List.filter p l `sublist_of` l.
Proof.
  induction l as [|x l IH]; simpl; [constructor|].
  destruct (p x); [apply sublist_skip | apply sublist_cons]; exact IH.
Qed.

Lemma comprehension_Raise lower name (l : list User.t) e :
  comprehension (name_matches lower name) l = Raise e <->
  e = AttributeError /\ exists u, u ∈ l /\ User.name u = None.
Proof.
  revert e. induction l as [|x l IH]; intros e; simpl.
  - split; [discriminate|]. intros (_ & u & Hu & _). inversion Hu.
  - unfold name_matches at 1. destruct (User.name x) as [s|] eqn:Ex.
    + destruct (comprehension (name_matches lower name) l) as [r|e'].
      * split; [discriminate|]. intros (He & u & Hu & Hn).
        apply elem_of_cons in Hu as [->|Hu]; [congruence|].
        assert (H : Return r = Raise e) by (apply IH; eauto). discriminate H.
      * split.
        -- intros H. inversion H; subst e'.
           destruct (proj1 (IH e) eq_refl) as (He & u & Hu & Hn).
           split; [exact He|]. exists u. split; [right; exact Hu | exact Hn].
        -- intros (He & _). subst e.
           destruct (proj1 (IH e') eq_refl) as (He' & _). rewrite He'. reflexivity.
    + split.
      * intros H. inversion H. split; [reflexivity|]. exists x. split; [left | exact Ex].
      * intros (-> & _). reflexivity.
Qed.

Lemma search_users_inv lower name role min_age max_age (d : list User.t) :
  snd (search_users lower name role min_age max_age d) = d.
Proof.
  unfold search_users.
  destruct (match name with
            | Some (c :: n) => comprehension (name_matches lower (c :: n)) d
            | _ => Return d
            end); reflexivity.
Qed.

(** X11. A search never changes the collection, and what it returns is a
    sublist of the collection: records of the collection, in the order of
    the collection, none of them twice unless the collection has it twice. *)
Theorem search_users_sublist lower name role min_age max_age (d : db) :
  snd (search_users lower name role min_age max_age d) = d /\
  (forall r, fst (search_users lower name role min_age max_age d) = Return r ->
             r `sublist_of` d).
Proof.
  split; [apply search_users_inv|].
  unfold search_users. intros r.
  destruct (match name with
            | Some (c :: n) => comprehension (name_matches lower (c :: n)) d
            | _ => Return d
            end) as [l0|e] eqn:E0; simpl; [|discriminate].
  intros H. inversion H; subst r. clear H.
  assert (H0 : l0 `sublist_of` d).
  { destruct name as [[|c n]|].
    - inversion E0. reflexivity.
    - apply comprehension_Return in E0. subst l0. apply List_filter_sublist.
    - inversion E0. reflexivity. }
  assert (Hstep : forall (o : option Z) (p : Z -> User.t -> bool) (l : list User.t),
             l `sublist_of` d ->
             match o with Some m => List.filter (p m) l | None => l end `sublist_of` d).
  { intros o p l Hl. destruct o; [|exact Hl].
    etransitivity; [apply List_filter_sublist | exact Hl]. }
  apply (Hstep max_age age_at_most), (Hstep min_age age_at_least).
  destruct role; [|exact H0].
  etransitivity; [apply List_filter_sublist | exact H0].
Qed.

(** X12. The only way a search fails: it raises exactly when [name] is a
    non-empty string and some stored record has a null name, and what it
    raises then is AttributeError.  Without a name, or with an empty one, or
    on a collection whose names are all strings, it returns a list. *)
Theorem search_users_raises lower name role min_age max_age (d : db) (e : exn) :
  fst (search_users lower name role min_age max_age d) = Raise e <->
  e = AttributeError /\
  (exists c n, name = Some (c :: n)) /\
  (exists u, u ∈ d /\ User.name u = None).
Proof.
  unfold search_users. destruct name as [[|c n]|]; simpl.
  - split; [discriminate|]. intros (_ & (c & n & H) & _). discriminate H.
  - destruct (comprehension (name_matches lower (c :: n)) d) as [l0|e'] eqn:E0; simpl.
    + split; [discriminate|]. intros (He & _ & Hu).
      assert (H : Return l0 = Raise e) by (rewrite <- E0; apply comprehension_Raise; auto).
      discriminate H.
    + apply comprehension_Raise in E0 as (-> & Hu). split.
      * intros H. inversion H. split; [reflexivity|]. split; [eauto | exact Hu].
      * intros (-> & _). reflexivity.
  - split; [discriminate|]. intros (_ & (c & n & H) & _). discriminate H.
Qed.

(** X13. An empty age range selects nothing: when [min_age] exceeds
    [max_age], a search that returns at all returns the empty list. *)
Theorem search_users_empty_range lower name role (lo hi : Z) (d : db) (r : list User.t) :
  hi < lo ->
  fst (search_users lower name role (Some lo) (Some hi) d) = Return r ->
  r = [].
Proof.
  intros Hlt Hr.
  assert (H : search_users lower name role (Some lo) (Some hi) d = (Return r, d)).
  { pose proof (search_users_inv lower name role (Some lo) (Some hi) d) as Hs.
    destruct (search_users lower name role (Some lo) (Some hi) d) as [o d'].
    simpl in Hr, Hs. subst. reflexivity. }
  destruct r as [|u r]; [reflexivity|]. exfalso.
  destruct (proj1 (search_users_selects lower name role (Some lo) (Some hi) d (u :: r) H u))
    as (_ & _ & _ & Hmin & Hmax); [left|].
  destruct (Hmin lo eq_refl) as (a & Ha & _ & Hlo).
  destruct (Hmax hi eq_refl) as (a' & Ha' & _ & Hhi).
  rewrite Ha in Ha'. inversion Ha'; subst. lia.
Qed.

Lemma search_users_empty_range_witness :
  30 < 40 /\
  fst (search_users ascii_lower None None (Some 40) (Some 30) users_db) = Return [] /\
  @nil User.t = [].
Proof.
  split; [lia|]. split; [reflexivity|].
  apply (search_users_empty_range ascii_lower None None 40 30 users_db []);
    [lia | reflexivity].
Defined.

(** X14. Searching by name alone is a case-insensitive substring search:
    for a non-empty [name] and a search that returns, a record is returned
    exactly when it is in the collection and the lowered [name] occurs as a
    contiguous run inside its lowered name.  Two queries with the same
    lowering are therefore answered alike. *)
Theorem search_users_by_name_substring lower (c : N) (n : str) (d : db) :
  (forall r,
     search_users lower (Some (c :: n)) None None None d = (Return r, d) ->
     forall u,
       u ∈ r <->
       u ∈ d /\
       exists s pre suf,
         User.name u = Some s /\ lower s = pre ++ lower (c :: n) ++ suf) /\
  (forall c' n' role min_age max_age,
     lower (c' :: n') = lower (c :: n) ->
     search_users lower (Some (c' :: n')) role min_age max_age d =
     search_users lower (Some (c :: n)) role min_age max_age d).
Proof.
  split.
  - intros r H u. rewrite (search_users_selects lower _ _ _ _ d r H u). split.
    + intros (Hu & Hname & _). split; [exact Hu|].
      destruct (Hname c n eq_refl) as (s & Hs & Hc).
      apply contains_spec in Hc as (pre & suf & Hc). eauto.
    + intros (Hu & s & pre & suf & Hs & Hc). split; [exact Hu|].
      split; [|split; [|split]]; try discriminate.
      intros c0 n0 H0. inversion H0; subst. exists s. split; [exact Hs|].
      apply contains_spec. eauto.
  - intros c' n' role min_age max_age Hl. unfold search_users.
    assert (Hc : forall l, comprehension (name_matches lower (c' :: n')) l =
                           comprehension (name_matches lower (c :: n)) l).
    { induction l as [|x l IH]; [reflexivity|]. simpl. rewrite IH.
      unfold name_matches. rewrite Hl. reflexivity. }
    rewrite Hc. reflexivity.
Qed.

Lemma search_users_by_name_substring_witness :
  ascii_lower (str_of_string "LEE") = ascii_lower (str_of_string "lee") /\
  search_users ascii_lower (Some (str_of_string "LEE")) (Some USER) None (Some 99) users_db =
  search_users ascii_lower (Some (str_of_string "lee")) (Some USER) None (Some 99) users_db.
Proof.
  split; [reflexivity|].
  apply (proj2 (search_users_by_name_substring ascii_lower 108%N
                  (str_of_string "ee") users_db)).
  reflexivity.
Defined.

(** ** Statistics: totals *)

Lemma sum_count_role (m : gmap (option UserRole) Z) (u : User.t) :
  map_fold (fun _ n acc => n + acc) 0 (count_role m u) =
  map_fold (fun _ n acc => n + acc) 0 m + 1.
Proof.
  unfold count_role. set (k := User.role u).
  assert (Hcomm : forall (m' : gmap (option UserRole) Z) (j1 j2 : option UserRole)
                         (z1 z2 y : Z),
             j1 <> j2 -> m' !! j1 = Some z1 -> m' !! j2 = Some z2 ->
             z1 + (z2 + y) = z2 + (z1 + y)) by (intros; lia).
  destruct (m !! k) as [v|] eqn:E; simpl.
  - rewrite <- (insert_delete_eq m k (v + 1)).
    rewrite map_fold_insert_L; [|apply Hcomm | apply lookup_delete_eq].
    rewrite (map_fold_delete_L _ 0 k v m); [lia | apply Hcomm | exact E].
  - rewrite map_fold_insert_L; [lia | apply Hcomm | exact E].
Qed.

Lemma sum_foldl_count_role (d : list User.t) (m : gmap (option UserRole) Z) :
  map_fold (fun _ n acc => n + acc) 0 (foldl count_role m d) =
  map_fold (fun _ n acc => n + acc) 0 m + Z.of_nat (length d).
Proof.
  revert m. induction d as [|u d IH]; intros m; simpl foldl.
  - simpl. lia.
  - rewrite IH, sum_count_role. simpl length. lia.
Qed.

(** X15. The figures of [GET /stats] add up, whatever the collection: the
    active count lies between 0 and the total, the inactive count is not
    negative, active plus inactive is the total, every count in the role
    mapping is at least 1, and the counts of the role mapping sum to the
    total. *)
Theorem get_stats_totals (d : db) :
  exists s,
    get_stats d = (Return s, d) /\
    0 <= Stats.active_users s <= Stats.total_users s /\
    0 <= Stats.inactive_users s /\
    Stats.active_users s + Stats.inactive_users s = Stats.total_users s /\
    (forall r n, Stats.role_distribution s !! r = Some n -> 1 <= n) /\
    map_fold (fun _ n acc => n + acc) 0 (Stats.role_distribution s) = Stats.total_users s.
Proof.
  eexists. split; [reflexivity|]. simpl.
  pose proof (List.filter_length_le (fun u => truthy_bool (User.is_active u)) d) as Hle.
  split; [lia|]. split; [lia|]. split; [lia|]. split.
  - intros r n. rewrite foldl_count_role, lookup_empty. simpl.
    destruct (decide (length (filter (fun u => User.role u = r) d) = 0%nat));
      [discriminate|]. intros H. inversion H. lia.
  - rewrite sum_foldl_count_role, map_fold_empty. lia.
Qed.

(** X16. What a create does to the statistics: after a successful
    [POST /users] the total and the active count are each one higher, the
    inactive count is the same, the count of the new record's role is one
    higher (1 if the role was not a key before) and no other role count
    moves. *)
Theorem get_stats_after_create (b : UserCreate.body) (d d' : db) (u : User.t) :
  post_users b d = (Return u, d') ->
  exists s s',
    get_stats d = (Return s, d) /\
    get_stats d' = (Return s', d') /\
    Stats.total_users s' = Stats.total_users s + 1 /\
    Stats.active_users s' = Stats.active_users s + 1 /\
    Stats.inactive_users s' = Stats.inactive_users s /\
    Stats.role_distribution s' !! User.role u =
      Some (default 0 (Stats.role_distribution s !! User.role u) + 1) /\
    (forall r, r <> User.role u ->
       Stats.role_distribution s' !! r = Stats.role_distribution s !! r).
Proof.
  unfold post_users. intros H.
  destruct (UserCreate.validate b) as [user|e]; [|discriminate].
  unfold create_user, User.init in H.
  destruct (check_name _); [|discriminate].
  destruct (match UserCreate.age user with Some a => check_age a | None => true end);
    [|discriminate].
  inversion H; subst u d'. clear H.
  eexists. eexists. split; [reflexivity|]. split; [reflexivity|]. simpl.
  rewrite length_app, List.filter_app, length_app, foldl_snoc. simpl.
  split; [lia|]. split; [lia|]. split; [lia|]. unfold count_role. simpl. split.
  - apply lookup_insert_eq.
  - intros r Hr. apply lookup_insert_ne. auto.
Qed.

Lemma get_stats_after_create_witness :
  let b := UserCreate.mkbody (Given (Some (str_of_string "Dana")))
             (Given (Some (str_of_string "dana@example.com"))) Unset (Given (Some GUEST)) in
  let u := User.mk 4 (Some (str_of_string "Dana"))
             (Some (str_of_string "dana@example.com")) None (Some GUEST) (Some true) in
  post_users b users_db = (Return u, users_db ++ [u]) /\
  exists s s',
    get_stats users_db = (Return s, users_db) /\
    get_stats (users_db ++ [u]) = (Return s', users_db ++ [u]) /\
    Stats.total_users s' = Stats.total_users s + 1 /\
    Stats.role_distribution s' !! Some GUEST = Some 1.
Proof.
  intros b u. split; [reflexivity|].
  destruct (get_stats_after_create b users_db (users_db ++ [u]) u eq_refl)
    as (s & s' & Hs & Hs' & Ht & _ & _ & Hrole & _).
  exists s, s'. split; [exact Hs|]. split; [exact Hs'|]. split; [exact Ht|].
  simpl in Hrole. rewrite Hrole. inversion Hs. reflexivity.
Defined.

(** ** Create: which bodies pass *)

(** X17. [POST /users] succeeds exactly on the bodies that have a name
    string of length in [2,50], an email string, an age that is left out,
    null or an integer in [0,120], and a role that is left out or not null.
    The stored record then has the name and email of the body, the age of
    the body (null when left out), the role of the body or [USER] when left
    out, and [is_active] true.  Every other body fails with ValidationError
    and leaves the collection as it was. *)
Theorem post_users_outcome (b : UserCreate.body) (d : db) :
  (forall n e,
     UserCreate.b_name b = Given (Some n) ->
     UserCreate.b_email b = Given (Some e) ->
     (2 <= length n <= 50)%nat ->
     (forall a, UserCreate.b_age b = Given (Some a) -> 0 <= a <= 120) ->
     UserCreate.b_role b <> Given None ->
     exists u,
       post_users b d = (Return u, d ++ [u]) /\
       User.name u = Some n /\
       User.email u = Some e /\
       User.age u = match UserCreate.b_age b with Given v => v | Unset => None end /\
       User.role u = Some match UserCreate.b_role b with Given (Some r) => r | _ => USER end /\
       User.is_active u = Some true) /\
  ((forall n, UserCreate.b_name b <> Given (Some n)) \/
   (forall e, UserCreate.b_email b <> Given (Some e)) \/
   (exists n, UserCreate.b_name b = Given (Some n) /\ ((length n < 2)%nat \/ (50 < length n)%nat)) \/
   (exists a, UserCreate.b_age b = Given (Some a) /\ (a < 0 \/ 120 < a)) \/
   UserCreate.b_role b = Given None ->
   post_users b d = (Raise ValidationError, d)).
Proof.
  split.
  - intros n e Hn He Hlen Hage Hrole.
    unfold post_users, UserCreate.validate. rewrite Hn, He.
    rewrite (proj2 (check_name_spec n) Hlen).
    destruct (UserCreate.b_age b) as [|[a|]] eqn:Ea;
      [ | rewrite (proj2 (check_age_spec a) (Hage a eq_refl)) | ];
      (destruct (UserCreate.b_role b) as [|[r|]] eqn:Er; [ | | congruence]);
      unfold create_user, User.init; simpl;
      rewrite (proj2 (check_name_spec n) Hlen);
      try rewrite (proj2 (check_age_spec a) (Hage a eq_refl));
      eexists; repeat split.
  - intros Hbad. unfold post_users, UserCreate.validate.
    destruct (UserCreate.b_name b) as [|[n|]] eqn:En;
      [reflexivity | | reflexivity].
    destruct (UserCreate.b_email b) as [|[e|]] eqn:Ee;
      [reflexivity | | reflexivity].
    destruct (check_name n) eqn:Cn; [|reflexivity].
    apply check_name_spec in Cn.
    destruct (UserCreate.b_age b) as [|[a|]] eqn:Ea;
      [ | destruct (check_age a) eqn:Ca;
          [apply check_age_spec in Ca
          | destruct (UserCreate.b_role b) as [|[r|]]; reflexivity] | ];
      (destruct (UserCreate.b_role b) as [|[r|]] eqn:Er; [ | | reflexivity]);
      exfalso;
      (destruct Hbad as [H|[H|[(n' & H & Hl)|[(a' & H & Hr)|H]]]];
       [ exact (H n eq_refl) | exact (H e eq_refl)
       | inversion H; subst; lia | try discriminate H; inversion H; subst; lia
       | discriminate H ]).
Qed.

Lemma post_users_outcome_witness :
  let b := UserCreate.mkbody (Given (Some (str_of_string "Dana"))) Unset Unset Unset in
  (forall e, UserCreate.b_email b <> Given (Some e)) /\
  post_users b users_db = (Raise ValidationError, users_db).
Proof.
  intros b.
  assert (H : forall e, UserCreate.b_email b <> Given (Some e)) by (intros e; discriminate).
  split; [exact H|].
  apply (proj2 (post_users_outcome b users_db)). right. left. exact H.
Defined.

(** ** Delete: the message names the id *)

Lemma str_of_string_inj (s t : string) : str_of_string s = str_of_string t -> s = t.
Proof.
  unfold str_of_string. intros H.
  assert (Hl : list_ascii_of_string s = list_ascii_of_string t).
  { revert H. generalize (list_ascii_of_string s) (list_ascii_of_string t).
    induction l as [|a l IH]; intros [|a' l'] H; try discriminate H; [reflexivity|].
    inversion H as [[Ha Hl]]. f_equal; [|exact (IH _ Hl)].
    rewrite <- (ascii_N_embedding a), <- (ascii_N_embedding a'), Ha. reflexivity. }
  rewrite <- (string_of_list_ascii_of_string s), <- (string_of_list_ascii_of_string t), Hl.
  reflexivity.
Qed.

Lemma to_int_nonnil (n : Z) : Z.to_int n <> Decimal.Pos Decimal.Nil /\
                              Z.to_int n <> Decimal.Neg Decimal.Nil.
Proof.
  destruct n as [|p|p]; simpl; split; try discriminate;
    intros H; inversion H as [Hp]; exact (DecimalPos.Unsigned.to_uint_nonnil p Hp).
Qed.

Lemma str_of_int_inj (a b : Z) : str_of_int a = str_of_int b -> a = b.
Proof.
  unfold str_of_int. intros H. apply str_of_string_inj in H.
  destruct (to_int_nonnil a) as [Ha1 Ha2]. destruct (to_int_nonnil b) as [Hb1 Hb2].
  pose proof (NilZero.isi (Z.to_int a) Ha1 Ha2) as Ia.
  pose proof (NilZero.isi (Z.to_int b) Hb1 Hb2) as Ib.
  rewrite H, Ib in Ia. inversion Ia as [Hab].
  rewrite <- (DecimalZ.of_to a), <- (DecimalZ.of_to b), Hab. reflexivity.
Qed.

(** X18. The confirmation of a delete tells the id: the message is the fixed
    prefix, the decimal form of the id and the fixed suffix, the status code
    is 200 for every id, and two successful deletes return the same message
    only when they deleted the same id. *)
Theorem delete_user_message_names_id (a b : Z) (d d' : db) (m m' : Message.t) :
  fst (delete_user a d) = Return m ->
  fst (delete_user b d') = Return m' ->
  Message.message m = deleted_prefix ++ str_of_int a ++ deleted_suffix /\
  Message.status_code m = 200 /\
  (Message.message m = Message.message m' -> a = b).
Proof.
  unfold delete_user.
  destruct (find_user a d) as [[i u]|]; simpl; [|discriminate].
  destruct (find_user b d') as [[j v]|]; simpl; [|discriminate].
  intros Hm Hm'. inversion Hm; subst m. inversion Hm'; subst m'.
  cbn [Message.message Message.status_code].
  split; [reflexivity|]. split; [reflexivity|].
  intros H.
  change (deleted_prefix ++ (str_of_int a ++ deleted_suffix) =
          deleted_prefix ++ (str_of_int b ++ deleted_suffix)) in H.
  apply app_inv_head, app_inv_tail in H. apply str_of_int_inj, H.
Qed.

Lemma delete_user_message_names_id_witness :
  exists m m',
    fst (delete_user 1 users_db) = Return m /\
    fst (delete_user 3 users_db) = Return m' /\
    Message.message m = deleted_prefix ++ str_of_int 1 ++ deleted_suffix /\
    Message.status_code m = 200.
Proof.
  eexists. eexists. split; [reflexivity|]. split; [reflexivity|].
  destruct (delete_user_message_names_id 1 3 users_db users_db _ _ eq_refl eq_refl)
    as (H1 & H2 & _).
  split; [exact H1 | exact H2].
Defined.

(** ** Search: the filters together *)

(** X19. What a search that returns selects: a record is in the result
    exactly when it is in the collection and passes every filter in force,
    all at once.  A non-empty [name] asks for a name string containing it
    after lowering; a [role] asks for that very role; [min_age] and
    [max_age] ask for an age that is an integer, is not 0, and lies on the
    right side of the bound.  A record with no age, or with age 0, passes
    neither age filter. *)
Theorem search_users_membership lower name role min_age max_age (d r : db) (u : User.t) :
  search_users lower name role min_age max_age d = (Return r, d) ->
  (u ∈ r <->
   u ∈ d /\
   (forall c n, name = Some (c :: n) ->
      exists s, User.name u = Some s /\ contains (lower (c :: n)) (lower s) = true) /\
   (forall x, role = Some x -> User.role u = Some x) /\
   (forall m, min_age = Some m -> exists a, User.age u = Some a /\ a <> 0 /\ m <= a) /\
   (forall m, max_age = Some m -> exists a, User.age u = Some a /\ a <> 0 /\ a <= m)) /\
  ((User.age u = None \/ User.age u = Some 0) ->
   (min_age <> None \/ max_age <> None) -> u ∉ r).
Proof.
  intros H. pose proof (search_users_selects lower name role min_age max_age d r H u) as Hs.
  split; [exact Hs|].
  intros Hage Hfilter Hin. apply Hs in Hin as (_ & _ & _ & Hmin & Hmax).
  destruct Hfilter as [Hf|Hf].
  - destruct min_age as [m|]; [|congruence].
    destruct (Hmin m eq_refl) as (a & Ha & Hz & _).
    destruct Hage as [Hn|Hn]; rewrite Hn in Ha; [discriminate | inversion Ha; lia].
  - destruct max_age as [m|]; [|congruence].
    destruct (Hmax m eq_refl) as (a & Ha & Hz & _).
    destruct Hage as [Hn|Hn]; rewrite Hn in Ha; [discriminate | inversion Ha; lia].
Qed.

Lemma search_users_membership_witness :
  let u := User.mk 2 (Some [51060; 50689; 55148]%N)
             (Some (str_of_string "lee@example.com")) (Some 30) (Some ADMIN) (Some true) in
  search_users ascii_lower None (Some ADMIN) (Some 18) (Some 65) users_db =
    (Return [u], users_db) /\
  (u ∈ [u] <->
   u ∈ users_db /\
   (forall c n, @None str = Some (c :: n) ->
      exists s, User.name u = Some s /\
                contains (ascii_lower (c :: n)) (ascii_lower s) = true) /\
   (forall x, Some ADMIN = Some x -> User.role u = Some x) /\
   (forall m, Some 18 = Some m -> exists a, User.age u = Some a /\ a <> 0 /\ m <= a) /\
   (forall m, Some 65 = Some m -> exists a, User.age u = Some a /\ a <> 0 /\ a <= m)).
Proof.
  intros u. split; [reflexivity|].
  apply (proj1 (search_users_membership ascii_lower None (Some ADMIN) (Some 18) (Some 65)
                  users_db [u] u eq_refl)).
Defined.
